(** * kevm_pyk.solc_to_k: the contract model derived from compiler artifacts

    A shallow embedding of [kevm_pyk/solc_to_k.py] and the properties its
    specification states about it.  Python values are modelled as follows:
    [str] as [string] (code points below 256), [int] as [Z] (counters and
    list positions as [nat]), [dict] as [gmap] or, for JSON objects, as an
    association list in insertion order, raised exceptions as the [Raise]
    branch of [result].

    [Untyped] is not a Python exception.  Where the source stores or formats
    a value of the artifact without looking at its type (a method name, a
    storage label), Python carries on whatever the value is; the model
    follows the dataclass annotations, and stops with [Untyped] when the
    value is not of the annotated type.  No statement below reads [Untyped]
    as a behaviour of the program. *)

From Stdlib Require Import ZArith String Ascii List Lia Bool DecimalString.
From Equations Require Import Equations.
From stdpp Require Import base gmap strings list sorting.

Local Open Scope Z_scope.

(** ** Exceptions *)

Inductive exn : Type :=
| ValueError (msg : string)
| KeyError (key : string)
| TypeError
| AttributeError
| RecursionError
| Untyped (what : string).

Inductive result (A : Type) : Type :=
| OK (a : A)
| Raise (e : exn).
Arguments OK {A} a.
Arguments Raise {A} e.

#[global] Instance result_ret : MRet result := fun _ a => OK a.
#[global] Instance result_bind : MBind result :=
  fun _ _ f r => match r with OK a => f a | Raise e => Raise e end.
#[global] Instance result_fmap : FMap result :=
  fun _ _ f r => match r with OK a => OK (f a) | Raise e => Raise e end.

Definition is_OK {A} (r : result A) : bool :=
  match r with OK _ => true | Raise _ => false end.

(** [[f(x) for x in xs]]: the first exception aborts the comprehension. *)
Fixpoint mapM_result {A B} (f : A -> result B) (xs : list A) : result (list B) :=
  match xs with
  | [] => OK []
  | x :: xs' => y ← f x; ys ← mapM_result f xs'; OK (y :: ys)
  end.

(** ** Python string primitives *)

Module Py.

Definition startswith (s p : string) : bool := String.prefix p s.

Fixpoint last_char (s : string) : option ascii :=
  match s with
  | EmptyString => None
  | String c EmptyString => Some c
  | String _ s' => last_char s'
  end.

(** [s.endswith(c)] for a one-character suffix. *)
Definition endswith (s : string) (c : ascii) : bool :=
  match last_char s with
  | Some d => Ascii.eqb d c
  | None => false
  end.

(** [s[n:]] *)
Fixpoint drop (n : nat) (s : string) : string :=
  match n, s with
  | O, _ => s
  | S n', String _ s' => drop n' s'
  | S _, EmptyString => EmptyString
  end.

(** [s[:-1]] *)
Fixpoint drop_last (s : string) : string :=
  match s with
  | EmptyString => EmptyString
  | String _ EmptyString => EmptyString
  | String c s' => String c (drop_last s')
  end.

(** [s.split(c)] for a one-character separator: never empty. *)
Fixpoint split (c : ascii) (s : string) : list string :=
  match s with
  | EmptyString => [EmptyString]
  | String d s' =>
      if Ascii.eqb d c then EmptyString :: split c s'
      else match split c s' with
           | [] => [String d EmptyString]
           | w :: ws => String d w :: ws
           end
  end.

(** [s.replace(a, b)] for one-character [a] and [b]. *)
Fixpoint replace_char (a b : ascii) (s : string) : string :=
  match s with
  | EmptyString => EmptyString
  | String c s' => String (if Ascii.eqb c a then b else c) (replace_char a b s')
  end.

(** [s.replace('0x', '')]: occurrences are removed left to right, without
    rescanning what a removal brings together. *)
Fixpoint remove_0x (s : string) : string :=
  match s with
  | String "0" (String "x" s') => remove_0x s'
  | String c s' => String c (remove_0x s')
  | EmptyString => EmptyString
  end.

(** [sep.join(xs)] *)
Fixpoint join (sep : string) (xs : list string) : string :=
  match xs with
  | [] => EmptyString
  | [x] => x
  | x :: xs' => x +:+ sep +:+ join sep xs'
  end.

(** *** [int(s)] and [int(s, 16)] on a string

    Leading and trailing white space is ignored, one sign is allowed, base
    16 allows a [0x] prefix, and single underscores may separate digits.
    Anything else raises [ValueError]. *)

Definition is_space (c : ascii) : bool :=
  let n := nat_of_ascii c in
  ((9 <=? n) && (n <=? 13) || (n =? 32) || (n =? 133) || (n =? 160))%nat.

Definition digit_value (c : ascii) : option Z :=
  let n := Z.of_nat (nat_of_ascii c) in
  if (48 <=? n) && (n <=? 57) then Some (n - 48)
  else if (97 <=? n) && (n <=? 122) then Some (n - 87)
  else if (65 <=? n) && (n <=? 90) then Some (n - 55)
  else None.

Fixpoint lstrip (s : string) : string :=
  match s with
  | String c s' => if is_space c then lstrip s' else s
  | EmptyString => EmptyString
  end.

Fixpoint all_space (s : string) : bool :=
  match s with
  | String c s' => is_space c && all_space s'
  | EmptyString => true
  end.

(** The digit loop: [acc] is the value so far, [prev_us] tells whether the
    previous character was an underscore, [seen] whether a digit was read.
    It stops at the first character that is neither a digit nor an
    underscore and returns the rest. *)
Fixpoint digits (base : Z) (s : string) (acc : Z) (prev_us seen : bool)
  : option (Z * string) :=
  match s with
  | String c s' =>
      if Ascii.eqb c "_" then
        if prev_us then None else digits base s' acc true seen
      else
        match digit_value c with
        | Some d =>
            if d <? base then digits base s' (acc * base + d) false true
            else if prev_us || negb seen then None else Some (acc, s)
        | None => if prev_us || negb seen then None else Some (acc, s)
        end
  | EmptyString => if prev_us || negb seen then None else Some (acc, s)
  end.

Definition invalid_literal (base : Z) (s : string) : exn :=
  ValueError ("invalid literal for int(): " +:+ s).

(** One sign may come first. *)
Definition split_sign (s : string) : Z * string :=
  match s with
  | String c r =>
      if Ascii.eqb c "+" then (1, r)
      else if Ascii.eqb c "-" then (-1, r)
      else (1, s)
  | EmptyString => (1, s)
  end.

(** In base 16 a prefix [0x] or [0X] is skipped, and one underscore after
    it. *)
Definition skip_prefix (base : Z) (s : string) : string :=
  match s with
  | String c (String x r) =>
      if Ascii.eqb c "0" && (base =? 16) && (Ascii.eqb x "x" || Ascii.eqb x "X") then
        match r with
        | String u r' => if Ascii.eqb u "_" then r' else r
        | EmptyString => r
        end
      else s
  | _ => s
  end.

Definition int_base (base : Z) (s : string) : result Z :=
  let '(sign, s2) := split_sign (lstrip s) in
  let s3 := skip_prefix base s2 in
  if startswith s3 "_" then Raise (invalid_literal base s)
  else
    match digits base s3 0 false false with
    | Some (v, rest) =>
        if all_space rest then OK (sign * v) else Raise (invalid_literal base s)
    | None => Raise (invalid_literal base s)
    end.

Definition int (s : string) : result Z := int_base 10 s.

(** [str(n)] for an [int]. *)
Definition str (n : Z) : string := NilZero.string_of_int (Z.to_int n).

End Py.


(** ** JSON values, as [json.loads] returns them

    Objects keep their insertion order and have distinct keys; numbers are
    integers (the artifact fields the program reads hold no floats). *)

#[local] Unset Elimination Schemes.
Inductive JSON : Type :=
| JNull
| JBool (b : bool)
| JInt (n : Z)
| JStr (s : string)
| JList (l : list JSON)
| JDict (kvs : list (string * JSON)).
#[local] Set Elimination Schemes.

Module Json.

Fixpoint assoc (k : string) (kvs : list (string * JSON)) : option JSON :=
  match kvs with
  | [] => None
  | (k', v) :: kvs' => if String.eqb k' k then Some v else assoc k kvs'
  end.

(** [j[k]] for a string key [k] *)
Definition getitem (j : JSON) (k : string) : result JSON :=
  match j with
  | JDict kvs =>
      match assoc k kvs with
      | Some v => OK v
      | None => Raise (KeyError k)
      end
  | _ => Raise TypeError
  end.

Fixpoint is_substring (k s : string) : bool :=
  String.prefix k s
  || match s with
     | String _ s' => is_substring k s'
     | EmptyString => false
     end.

(** [k in j] for a string [k] *)
Definition contains (k : string) (j : JSON) : result bool :=
  match j with
  | JDict kvs => OK (bool_decide (is_Some (assoc k kvs)))
  | JList l =>
      OK (existsb (fun x => match x with JStr s => String.eqb s k | _ => false end) l)
  | JStr s => OK (is_substring k s)
  | _ => Raise TypeError
  end.

Fixpoint chars (s : string) : list JSON :=
  match s with
  | EmptyString => []
  | String c s' => JStr (String c EmptyString) :: chars s'
  end.

(** [for x in j]: the elements of a list, the keys of a dict, the characters
    of a string. *)
Definition iter (j : JSON) : result (list JSON) :=
  match j with
  | JList l => OK l
  | JDict kvs => OK (map (fun kv => JStr (fst kv)) kvs)
  | JStr s => OK (chars s)
  | _ => Raise TypeError
  end.

(** [int(j)] *)
Definition int (j : JSON) : result Z :=
  match j with
  | JInt n => OK n
  | JBool b => OK (if b then 1 else 0)
  | JStr s => Py.int s
  | _ => Raise TypeError
  end.

(** [int(j, 16)]: only a string can be converted with an explicit base. *)
Definition int16 (j : JSON) : result Z :=
  match j with
  | JStr s => Py.int_base 16 s
  | _ => Raise TypeError
  end.

(** A value on which a [str] method is called. *)
Definition str_receiver (j : JSON) : result string :=
  match j with
  | JStr s => OK s
  | _ => Raise AttributeError
  end.

(** A value passed where only a [str] is accepted ([re.match], [str.join]). *)
Definition str_argument (j : JSON) : result string :=
  match j with
  | JStr s => OK s
  | _ => Raise TypeError
  end.

(** A value stored in a field annotated [str], or formatted into one. *)
Definition str_annotated (what : string) (j : JSON) : result string :=
  match j with
  | JStr s => OK s
  | _ => Raise (Untyped what)
  end.

(** *** [json.dumps(j, sort_keys=True)] *)

Definition hex_digit (n : nat) : ascii :=
  ascii_of_nat (if (n <? 10)%nat then 48 + n else 87 + n).

(** One character inside a string literal, with [ensure_ascii]. *)
Definition escape_char (c : ascii) : string :=
  let n := nat_of_ascii c in
  if Ascii.eqb c "034" then String "\" (String "034" EmptyString)
  else if Ascii.eqb c "\" then String "\" (String "\" EmptyString)
  else if (n =? 10)%nat then String "\" (String "n" EmptyString)
  else if (n =? 13)%nat then String "\" (String "r" EmptyString)
  else if (n =? 9)%nat then String "\" (String "t" EmptyString)
  else if (n =? 12)%nat then String "\" (String "f" EmptyString)
  else if (n =? 8)%nat then String "\" (String "b" EmptyString)
  else if ((32 <=? n) && (n <=? 126))%nat then String c EmptyString
  else String "\" (String "u" (String "0" (String "0"
         (String (hex_digit (n / 16)) (String (hex_digit (n mod 16)) EmptyString))))).

Fixpoint escape (s : string) : string :=
  match s with
  | EmptyString => EmptyString
  | String c s' => escape_char c +:+ escape s'
  end.

Definition quote (s : string) : string :=
  String "034" (escape s +:+ String "034" EmptyString).

(** [sorted(items)] on the items of a dict: a stable sort on the keys. *)
Fixpoint insert_item {A} (kv : string * A) (l : list (string * A)) : list (string * A) :=
  match l with
  | [] => [kv]
  | kv' :: l' =>
      if String.leb (fst kv) (fst kv') then kv :: l else kv' :: insert_item kv l'
  end.

Definition sort_items {A} (l : list (string * A)) : list (string * A) :=
  foldr insert_item [] l.

Fixpoint dumps (j : JSON) : string :=
  match j with
  | JNull => "null"
  | JBool true => "true"
  | JBool false => "false"
  | JInt n => Py.str n
  | JStr s => quote s
  | JList l => "[" +:+ Py.join ", " (map dumps l) +:+ "]"
  | JDict kvs =>
      "{" +:+ Py.join ", "
                (map (fun kv => quote (fst kv) +:+ ": " +:+ snd kv)
                   (sort_items (map (fun kv => (fst kv, dumps (snd kv))) kvs)))
          +:+ "}"
  end.

End Json.

(** ** K terms

    The part of pyk's abstract syntax that the module builds: sorts, labels,
    terms, production items and sentences. *)

Record KSort : Type := mkKSort { sort_name : string }.
Record KLabel : Type := mkKLabel { label_name : string }.

#[local] Unset Elimination Schemes.
Inductive KInner : Type :=
| KVariable (name : string)
| KToken (token : string) (sort : KSort)
| KApply (label : KLabel) (args : list KInner)
| KRewrite (lhs rhs : KInner).
#[local] Set Elimination Schemes.

Inductive KProductionItem : Type :=
| KTerminal (value : string)
| KNonTerminal (sort : KSort).

Inductive KSentence : Type :=
| KProduction (sort : KSort) (items : list KProductionItem)
    (klabel : option KLabel) (att : list (string * string))
| KRule (body : KInner) (ensures : KInner).

Definition TRUE : KInner := KToken "true" (mkKSort "Bool").
Definition intToken (n : Z) : KInner := KToken (Py.str n) (mkKSort "Int").
Definition stringToken (s : string) : KInner := KToken (Json.quote s) (mkKSort "String").

Definition is_TRUE (t : KInner) : bool :=
  match t with
  | KToken tok srt => String.eqb tok "true" && String.eqb (sort_name srt) "Bool"
  | _ => false
  end.

(** [andBool(items)]: the conjunction nested to the right, [TRUE] items left
    out, [TRUE] for no item. *)
Fixpoint andBool (items : list KInner) : KInner :=
  match items with
  | [] => TRUE
  | t :: items' =>
      if is_TRUE t then andBool items'
      else if forallb is_TRUE items' then t
      else KApply (mkKLabel "_andBool_") [t; andBool items']
  end.

(** Modelled from the spec: [kevm.py], which holds the class [KEVM], is not
    among the sources.  Each helper builds the application of a symbol named
    after it; what the range symbols mean is given by [holds] below, after
    section 4.2 of the specification. *)
Module KEVM.

Definition range_uint (width : Z) (i : KInner) : KInner :=
  KApply (mkKLabel "range_uint") [intToken width; i].
Definition range_sint (width : Z) (i : KInner) : KInner :=
  KApply (mkKLabel "range_sint") [intToken width; i].
Definition range_address (i : KInner) : KInner :=
  KApply (mkKLabel "range_address") [i].
Definition range_bool (i : KInner) : KInner :=
  KApply (mkKLabel "range_bool") [i].
Definition range_bytes (width : KInner) (ba : KInner) : KInner :=
  KApply (mkKLabel "range_bytes") [width; ba].
Definition size_bytes (ba : KInner) : KInner :=
  KApply (mkKLabel "size_bytes") [ba].
Definition abi_type (type : string) (value : KInner) : KInner :=
  KApply (mkKLabel ("abi_type_" +:+ type)) [value].
Definition abi_calldata (name : string) (args : list KInner) : KInner :=
  KApply (mkKLabel "abi_calldata") (stringToken name :: args).
Definition abi_selector (name : string) : KInner :=
  KApply (mkKLabel "abi_selector") [stringToken name].

(** The integer a term denotes when its variables are read in [env]. *)
Definition eval_int (env : string -> Z) (t : KInner) : option Z :=
  match t with
  | KVariable x => Some (env x)
  | KToken tok srt =>
      if String.eqb (sort_name srt) "Int" then
        match Py.int tok with OK n => Some n | Raise _ => None end
      else None
  | _ => None
  end.

Definition in_range (lo hi : Z) (x : option Z) : option bool :=
  match x with
  | Some v => Some ((lo <=? v) && (v <=? hi))
  | None => None
  end.

(** Whether a range predicate accepts the values of [env]: unsigned ranges
    are [[0, 2^N - 1]], the address range is the unsigned 160-bit one, a
    Boolean is 0 or 1, [N] packed bytes are the unsigned [8 N]-bit range, the
    signed range is [[-2^(N-1), 2^(N-1) - 1]]. *)
Definition holds (env : string -> Z) (t : KInner) : option bool :=
  match t with
  | KApply (mkKLabel "range_uint") [w; i] =>
      match eval_int env w with
      | Some n => in_range 0 (2 ^ n - 1) (eval_int env i)
      | None => None
      end
  | KApply (mkKLabel "range_sint") [w; i] =>
      match eval_int env w with
      | Some n => in_range (- 2 ^ (n - 1)) (2 ^ (n - 1) - 1) (eval_int env i)
      | None => None
      end
  | KApply (mkKLabel "range_address") [i] => in_range 0 (2 ^ 160 - 1) (eval_int env i)
  | KApply (mkKLabel "range_bool") [i] => in_range 0 1 (eval_int env i)
  | KApply (mkKLabel "range_bytes") [w; i] =>
      match eval_int env w with
      | Some n => in_range 0 (2 ^ (8 * n) - 1) (eval_int env i)
      | None => None
      end
  | _ => if is_TRUE t then Some true else None
  end.

End KEVM.

(** ** Helpers *)

Definition unsupported_base_sort (type_label : string) : exn :=
  ValueError ("Unsupported evm base sort type: " +:+ type_label).

Definition unsupported_range_predicate (type_label : string) : exn :=
  ValueError ("Unsupported range predicate type: " +:+ type_label).

Definition _evm_base_sort_int (type_label : string) : result bool :=
  let success := false in
  (* Check address and bool *)
  let success :=
    if String.eqb type_label "address" || String.eqb type_label "bool"
    then true else success in
  (* Check bytes *)
  success ←
    (if Py.startswith type_label "bytes"
        && (5 <? String.length type_label)%nat
        && negb (Py.endswith type_label "]")
     then
       width ← Py.int (Py.drop 5 type_label);
       if negb ((width =? 4) || (width =? 32))
       then Raise (unsupported_base_sort type_label)
       else OK true
     else OK success);
  (* Check ints *)
  success ←
    (if Py.startswith type_label "int" && negb (Py.endswith type_label "]")
     then
       width ← Py.int (Py.drop 3 type_label);
       if negb (width =? 256)
       then Raise (unsupported_base_sort type_label)
       else OK true
     else OK success);
  (* Check uints *)
  success ←
    (if Py.startswith type_label "uint" && negb (Py.endswith type_label "]")
     then
       width ← Py.int (Py.drop 4 type_label);
       if negb ((0 <? width) && (width <=? 256) && (width mod 8 =? 0))
       then Raise (unsupported_base_sort type_label)
       else OK true
     else OK success);
  OK success.

Definition _evm_base_sort (type_label : string) : result KSort :=
  b ← _evm_base_sort_int type_label;
  if b : bool then OK (mkKSort "Int")
  else if String.eqb type_label "bytes" then OK (mkKSort "Bytes")
  else if String.eqb type_label "string" then OK (mkKSort "String")
  else OK (mkKSort "K").

Definition _range_predicate_uint (term : KInner) (type_label : string)
  : result (bool * option KInner) :=
  if Py.startswith type_label "uint" && negb (Py.endswith type_label "]")
  then
    width ← Py.int (Py.drop 4 type_label);
    if negb ((0 <? width) && (width <=? 256) && (width mod 8 =? 0))
    then Raise (unsupported_range_predicate type_label)
    else OK (true, Some (KEVM.range_uint width term))
  else OK (false, None).

Definition _range_predicate (term : KInner) (type_label : string)
  : result (option KInner) :=
  '(success, res) ← _range_predicate_uint term type_label;
  if success : bool then OK res
  else if String.eqb type_label "address" then OK (Some (KEVM.range_address term))
  else if String.eqb type_label "bool" then OK (Some (KEVM.range_bool term))
  else if String.eqb type_label "bytes4" then OK (Some (KEVM.range_bytes (intToken 4) term))
  else if String.eqb type_label "bytes32" || String.eqb type_label "uint256"
       then OK (Some (KEVM.range_uint 256 term))
  else if String.eqb type_label "int256" then OK (Some (KEVM.range_sint 256 term))
  else if String.eqb type_label "bytes"
       then OK (Some (KEVM.range_uint 128 (KEVM.size_bytes term)))
  else if String.eqb type_label "string" then OK (Some TRUE)
  else OK None.

(** *** The canonical signature of a method *)

Module Re.

Fixpoint contains_char (c : ascii) (s : string) : bool :=
  match s with
  | EmptyString => false
  | String d s' => Ascii.eqb d c || contains_char c s'
  end.

(** The characters before the first line feed: [.] matches no line feed. *)
Fixpoint first_line (s : string) : string :=
  match s with
  | EmptyString => EmptyString
  | String c s' => if Ascii.eqb c "010" then EmptyString else String c (first_line s')
  end.

(** Some [[] of [s] has a []] after it. *)
Fixpoint open_then_close (s : string) : bool :=
  match s with
  | EmptyString => false
  | String c s' =>
      (Ascii.eqb c "[" && contains_char "]" s') || open_then_close s'
  end.

(** [re.match(r'.+\[.*\]', s)]: a prefix of [s], within its first line, is
    one character or more, a [[], any characters, a []]. *)
Definition match_array (s : string) : bool :=
  match first_line s with
  | EmptyString => false
  | String _ rest => open_then_close rest
  end.

End Re.

Fixpoint json_depth (j : JSON) : nat :=
  match j with
  | JList l => S (list_max (map json_depth l))
  | JDict kvs => S (list_max (map (fun kv => json_depth (snd kv)) kvs))
  | _ => O
  end.

(** [unparse_input], the local function of [method_sig_from_abi].  [depth] is
    the number of nested calls still allowed: Python raises [RecursionError]
    when its stack is used up. *)
Fixpoint unparse_input_rec (depth : nat) (input_json : JSON) : result string :=
  match depth with
  | O => Raise RecursionError
  | S depth' =>
      type_json ← Json.getitem input_json "type";
      base_type ← Json.str_argument type_json;
      '(is_array, is_sized, array_size, base_type') ←
        (if Re.match_array base_type then
           let array_size_str := Py.drop_last (nth 1 (Py.split "[" base_type) "") in
           '(is_sized, array_size) ←
             (if negb (String.eqb array_size_str "")
              then n ← Py.int array_size_str; OK (true, n)
              else OK (false, 0));
           OK (true, is_sized, array_size, nth 0 (Py.split "[" base_type) "")
         else OK (false, false, 0, base_type));
      if String.eqb base_type' "tuple" then
        components ← Json.getitem input_json "components";
        items ← Json.iter components;
        parts ← mapM_result (unparse_input_rec depth') items;
        let input_type := "(" +:+ Py.join "," parts +:+ ")" in
        if (is_array : bool) && negb is_sized then OK (input_type +:+ "[]")
        else if is_array && is_sized then OK (input_type +:+ "[" +:+ Py.str array_size +:+ "]")
        else OK input_type
      else OK base_type
  end.

(** The nesting of [input_json] bounds the depth of the calls. *)
Definition unparse_input (input_json : JSON) : result string :=
  unparse_input_rec (S (json_depth input_json)) input_json.

Definition method_sig_from_abi (method_json : JSON) : result string :=
  method_name ← Json.getitem method_json "name";
  inputs ← Json.getitem method_json "inputs";
  items ← Json.iter inputs;
  parts ← mapM_result unparse_input items;
  name ← Json.str_annotated "method name" method_name;
  OK (name +:+ "(" +:+ Py.join "," parts +:+ ")").

(** ** The class [Contract.Method] *)

(** [[f(i, x) for i, x in enumerate(xs)]] *)
Fixpoint mapM_enumerate {A B} (f : nat -> A -> result B) (i : nat) (xs : list A)
  : result (list B) :=
  match xs with
  | [] => OK []
  | x :: xs' => y ← f i x; ys ← mapM_enumerate f (S i) xs'; OK (y :: ys)
  end.

Module Method.

Record t : Type := mk {
  name : string;
  id : Z;
  sort : KSort;
  arg_names : list string;
  arg_types : list string;
  contract_name : string;
  payable : bool;
  signature : string
}.

(** [Method.__init__] *)
Definition init (msig : string) (id : Z) (abi : JSON) (contract_name : string)
  (sort : KSort) : result t :=
  name_json ← Json.getitem abi "name";
  inputs ← Json.getitem abi "inputs";
  items ← Json.iter inputs;
  arg_names ←
    mapM_enumerate
      (fun i input =>
         n ← Json.getitem input "name";
         s ← Json.str_receiver n;
         OK ("V" +:+ Py.str (Z.of_nat i) +:+ "_" +:+ Py.replace_char "-" "_" s))
      O items;
  inputs' ← Json.getitem abi "inputs";
  items' ← Json.iter inputs';
  arg_types_json ← mapM_result (fun input => Json.getitem input "type") items';
  mutability ← Json.getitem abi "stateMutability";
  name ← Json.str_annotated "method name" name_json;
  arg_types ← mapM_result (Json.str_annotated "argument type") arg_types_json;
  OK {| name := name; id := id; sort := sort;
        arg_names := arg_names; arg_types := arg_types;
        contract_name := contract_name;
        payable := match mutability with
                   | JStr s => String.eqb s "payable"
                   | _ => false
                   end;
        signature := msig |}.

Definition klabel (self : t) : KLabel :=
  let args_list := Py.join "_" (arg_types self) in
  mkKLabel ("method_" +:+ contract_name self +:+ "_" +:+ name self +:+ "_" +:+ args_list).

Definition selector_alias_rule (self : t) : KSentence :=
  KRule (KRewrite (KEVM.abi_selector (signature self)) (intToken (id self))) TRUE.

(** The loop of [production] over the argument types. *)
Fixpoint production_items (i : nat) (types : list string)
  : result (list KProductionItem) :=
  match types with
  | [] => OK []
  | input_type :: types' =>
      srt ← _evm_base_sort input_type;
      rest ← production_items (S i) types';
      OK ((if (0 <? i)%nat then [KTerminal ","] else [])
            ++ [KNonTerminal srt; KTerminal ":"; KTerminal input_type] ++ rest)
  end.

Definition production (self : t) : result KSentence :=
  let items_before := [KTerminal (name self); KTerminal "("] in
  items_args ← production_items O (arg_types self);
  let items_after := [KTerminal ")"] in
  OK (KProduction (sort self) (items_before ++ items_args ++ items_after)
        (Some (klabel self)) [("symbol"%string, ""%string)]).

(** The loop of [rule] over [zip(arg_names, arg_types, strict=True)]:
    [None] as soon as an argument has no range predicate. *)
Fixpoint rule_loop (names types : list string) (args conjuncts : list KInner)
  : result (option (list KInner * list KInner)) :=
  match names, types with
  | [], [] => OK (Some (args, conjuncts))
  | input_name :: names', input_type :: types' =>
      let args := args ++ [KEVM.abi_type input_type (KVariable input_name)] in
      rp ← _range_predicate (KVariable input_name) input_type;
      match rp with
      | None => OK None
      | Some p => rule_loop names' types' args (conjuncts ++ [p])
      end
  | [], _ :: _ => Raise (ValueError "zip() argument 2 is longer than argument 1")
  | _ :: _, [] => Raise (ValueError "zip() argument 2 is shorter than argument 1")
  end.

Definition rule (self : t) (contract : KInner) (application_label : KLabel)
  (contract_name : string) : result (option KSentence) :=
  let arg_vars := map KVariable (arg_names self) in
  let prod_klabel := klabel self in
  r ← rule_loop (arg_names self) (arg_types self) [] [];
  match r with
  | None => OK None
  | Some (args, conjuncts) =>
      let lhs := KApply application_label [contract; KApply prod_klabel arg_vars] in
      let rhs := KEVM.abi_calldata (name self) args in
      let ensures := andBool conjuncts in
      OK (Some (KRule (KRewrite lhs rhs) ensures))
  end.

End Method.

(** ** [pyk.utils.hash_str]

    [hash_str(x)] is the SHA-256 digest of the UTF-8 encoding of [str(x)],
    in lower-case hexadecimal. *)

Module Sha256.

Definition w32 (x : Z) : Z := x mod 2 ^ 32.
Definition rotr (n x : Z) : Z := w32 (Z.lor (Z.shiftr x n) (Z.shiftl x (32 - n))).
Definition ch (x y z : Z) : Z := Z.lxor (Z.land x y) (Z.land (Z.lxor x 0xffffffff) z).
Definition maj (x y z : Z) : Z :=
  Z.lxor (Z.lxor (Z.land x y) (Z.land x z)) (Z.land y z).
Definition bsig0 (x : Z) : Z := Z.lxor (Z.lxor (rotr 2 x) (rotr 13 x)) (rotr 22 x).
Definition bsig1 (x : Z) : Z := Z.lxor (Z.lxor (rotr 6 x) (rotr 11 x)) (rotr 25 x).
Definition ssig0 (x : Z) : Z := Z.lxor (Z.lxor (rotr 7 x) (rotr 18 x)) (Z.shiftr x 3).
Definition ssig1 (x : Z) : Z := Z.lxor (Z.lxor (rotr 17 x) (rotr 19 x)) (Z.shiftr x 10).

(** The constants of the standard are the first 32 bits of the fractional
    parts of the square roots (for [H0]) and of the cube roots (for [K]) of
    the first primes. *)
Definition is_prime (n : nat) : bool :=
  forallb (fun d => negb (n mod d =? 0)%nat) (seq 2 (n - 2)).

Definition primes : list Z :=
  map Z.of_nat (List.filter is_prime (seq 2 310)).

(** The integer cube root of [x], one bit at a time from bit [n - 1]. *)
Fixpoint cube_root (n : nat) (x r : Z) : Z :=
  match n with
  | O => r
  | S n' =>
      let c := r + 2 ^ Z.of_nat n' in
      cube_root n' x (if c * c * c <=? x then c else r)
  end.

Definition H0 : list Z :=
  map (fun p => Z.sqrt (p * 2 ^ 64) mod 2 ^ 32) (take 8 primes).

Definition K : list Z :=
  map (fun p => cube_root 40 (p * 2 ^ 96) 0 mod 2 ^ 32) primes.

(** UTF-8 of a string of code points below 256. *)
Fixpoint utf8 (s : string) : list Z :=
  match s with
  | EmptyString => []
  | String c s' =>
      let n := Z.of_nat (nat_of_ascii c) in
      if n <? 128 then n :: utf8 s'
      else Z.lor 0xc0 (Z.shiftr n 6) :: Z.lor 0x80 (Z.land n 0x3f) :: utf8 s'
  end.

(** Big-endian bytes of [x], [n] of them. *)
Fixpoint be_bytes (n : nat) (x : Z) : list Z :=
  match n with
  | O => []
  | S n' => Z.shiftr x (8 * Z.of_nat n') mod 256 :: be_bytes n' x
  end.

Definition pad (msg : list Z) : list Z :=
  let len := Z.of_nat (length msg) in
  let zeros := Z.to_nat ((55 - len) mod 64) in
  msg ++ [0x80] ++ repeat 0 zeros ++ be_bytes 8 (8 * len).

Fixpoint words (n : nat) (bytes : list Z) : list Z :=
  match n, bytes with
  | S n', a :: b :: c :: d :: rest =>
      (((a * 256 + b) * 256 + c) * 256 + d) :: words n' rest
  | _, _ => []
  end.

(** The message schedule: [n] more words after those of [w]. *)
Fixpoint schedule (n : nat) (w : list Z) : list Z :=
  match n with
  | O => w
  | S n' =>
      let t := length w in
      let x := w32 (ssig1 (nth (t - 2) w 0) + nth (t - 7) w 0
                    + ssig0 (nth (t - 15) w 0) + nth (t - 16) w 0) in
      schedule n' (w ++ [x])
  end.

Definition round (st : list Z) (kw : Z * Z) : list Z :=
  match st with
  | [a; b; c; d; e; f; g; h] =>
      let t1 := h + bsig1 e + ch e f g + fst kw + snd kw in
      let t2 := bsig0 a + maj a b c in
      [w32 (t1 + t2); a; b; c; w32 (d + t1); e; f; g]
  | _ => st
  end.

Definition compress (h : list Z) (block : list Z) : list Z :=
  let w := schedule 48 (words 16 block) in
  let st := fold_left round (combine K w) h in
  map (fun p => w32 (fst p + snd p)) (combine h st).

Fixpoint blocks (n : nat) (h : list Z) (bytes : list Z) : list Z :=
  match n with
  | O => h
  | S n' => blocks n' (compress h (take 64 bytes)) (drop 64 bytes)
  end.

Definition digest (msg : list Z) : list Z :=
  let padded := pad msg in
  blocks (length padded / 64) H0 padded.

Fixpoint hex (n : nat) (x : Z) : string :=
  match n with
  | O => EmptyString
  | S n' =>
      String (Json.hex_digit (Z.to_nat (Z.shiftr x (4 * Z.of_nat n') mod 16))) (hex n' x)
  end.

Definition hexdigest (msg : list Z) : string :=
  foldr (fun w acc => hex 8 w +:+ acc) EmptyString (digest msg).

End Sha256.

Definition hash_str (x : string) : string := Sha256.hexdigest (Sha256.utf8 x).

(** ** The class [Contract] *)

(** [sorted(xs, key=...)]: a stable sort, here by insertion. *)
Fixpoint insert_by {A} (key : A -> string) (x : A) (l : list A) : list A :=
  match l with
  | [] => [x]
  | y :: l' => if String.leb (key x) (key y) then x :: l else y :: insert_by key x l'
  end.

Definition sorted_by {A} (key : A -> string) (l : list A) : list A :=
  foldr (insert_by key) [] l.

(** One entry of the source map: start, length, file, jump tag, modifier
    depth. *)
Definition srcmap_entry : Type := (Z * Z * Z * string * Z)%type.

Module Contract.

Record t : Type := mk {
  name : string;
  contract_json : JSON;
  contract_id : JSON;
  contract_path : JSON;
  bytecode : string;
  raw_sourcemap : JSON;   (* [JNull] is [None] *)
  methods : list Method.t;
  fields : gmap string Z
}.

(** [c.upper()] for the ASCII letters a contract name is made of. *)
Definition upper_char (c : ascii) : ascii :=
  let n := nat_of_ascii c in
  if ((97 <=? n) && (n <=? 122))%nat then ascii_of_nat (n - 32) else c.

Definition name_upper (name : string) : string :=
  match name with
  | EmptyString => EmptyString
  | String c s => String (upper_char c) s
  end.

Definition sort (name : string) : KSort := mkKSort (name_upper name +:+ "Contract").
Definition sort_field (name : string) : KSort := mkKSort (name_upper name +:+ "Field").
Definition sort_method (name : string) : KSort := mkKSort (name_upper name +:+ "Method").
Definition klabel (name : string) : KLabel := mkKLabel ("contract_" +:+ name).
Definition klabel_method (name : string) : KLabel := mkKLabel ("method_" +:+ name).
Definition klabel_field (name : string) : KLabel := mkKLabel ("field_" +:+ name).

(** *** [__init__] *)

Definition duplicate_field_message (name l : string) : string :=
  "Found duplicate field access key on contract " +:+ name +:+ ": " +:+ l.

(** The loop over [_fields_list]: the table built so far and the messages
    given to the logger. *)
Definition collect_field (name : string) (acc : gmap string Z * list string)
  (entry : string * Z) : gmap string Z * list string :=
  let '(_fields, log) := acc in
  let '(_l, _s) := entry in
  if bool_decide (is_Some (_fields !! _l))
  then (_fields, log ++ [duplicate_field_message name _l])
  else (<[_l := _s]> _fields, log).

Definition collect_fields (name : string) (_fields_list : list (string * Z))
  : gmap string Z * list string :=
  fold_left (collect_field name) _fields_list (∅, []).

(** [[(_f['label'], int(_f['slot'])) for _f in storage]] *)
Definition fields_list (storage : JSON) : result (list (string * Z)) :=
  items ← Json.iter storage;
  mapM_result
    (fun _f =>
       label ← Json.getitem _f "label";
       slot ← Json.getitem _f "slot";
       _s ← Json.int slot;
       _l ← Json.str_annotated "field label" label;
       OK (_l, _s))
    items.

(** The storage fields and what is logged while they are collected. *)
Definition init_fields (name : string) (contract_json : JSON)
  : result (gmap string Z * list string) :=
  has_layout ← Json.contains "storageLayout" contract_json;
  if has_layout : bool then
    layout ← Json.getitem contract_json "storageLayout";
    has_storage ← Json.contains "storage" layout;
    if has_storage : bool then
      storage ← Json.getitem layout "storage";
      l ← fields_list storage;
      OK (collect_fields name l)
    else OK (∅, [])
  else OK (∅, []).

(** The loop over the entries of the ABI. *)
Fixpoint init_methods (contract_name : string) (evm : JSON) (abi : list JSON)
  : result (list Method.t) :=
  match abi with
  | [] => OK []
  | method :: abi' =>
      ty ← Json.getitem method "type";
      match ty with
      | JStr "function" =>
          msig ← method_sig_from_abi method;
          ids ← Json.getitem evm "methodIdentifiers";
          mid_json ← Json.getitem ids msig;
          mid ← Json.int16 mid_json;
          _m ← Method.init msig mid method contract_name (sort_method contract_name);
          rest ← init_methods contract_name evm abi';
          OK (_m :: rest)
      | _ => init_methods contract_name evm abi'
      end
  end.

Definition init (contract_name : string) (contract_json : JSON) (foundry : bool)
  : result t :=
  contract_id ← Json.getitem contract_json "id";
  ast ← Json.getitem contract_json "ast";
  contract_path ← Json.getitem ast "absolutePath";
  evm ← (if negb foundry then Json.getitem contract_json "evm" else OK contract_json);
  deployed_bytecode ← Json.getitem evm "deployedBytecode";
  object ← Json.getitem deployed_bytecode "object";
  object_str ← Json.str_receiver object;
  let bytecode := Py.remove_0x object_str in
  has_sourcemap ← Json.contains "sourceMap" deployed_bytecode;
  raw_sourcemap ←
    (if has_sourcemap : bool then Json.getitem deployed_bytecode "sourceMap" else OK JNull);
  abi ← Json.getitem contract_json "abi";
  entries ← Json.iter abi;
  _methods ← init_methods contract_name evm entries;
  let methods := sorted_by Method.signature _methods in
  fl ← init_fields contract_name contract_json;
  OK {| name := contract_name; contract_json := contract_json;
        contract_id := contract_id; contract_path := contract_path;
        bytecode := bytecode; raw_sourcemap := raw_sourcemap;
        methods := methods; fields := fst fl |}.

(** *** [srcmap] *)

(** [[bytecode[i : i + 2] for i in range(0, len(bytecode), 2)]] *)
Fixpoint pairs (s : string) : list string :=
  match s with
  | EmptyString => []
  | String a EmptyString => [String a EmptyString]
  | String a (String b s') => String a (String b EmptyString) :: pairs s'
  end.

Definition is_push (b : Z) : bool := (0x60 <=? b) && (b <? 0x7F).

(** The state of the [while] loop: program counter, instruction counter and
    the table [instr_to_pc]. *)
Record scan_state : Type := mkScan {
  pc : nat;
  instr : nat;
  instr_to_pc : gmap nat nat
}.

Equations? scan (bs : list Z) (st : scan_state) : scan_state
  by wf (length bs - pc st)%nat lt :=
scan bs st with Equations.Prop.Logic.inspect (bs !! pc st) := {
  | exist _ None _ => st
  | exist _ (Some b) Hb =>
      let instr_to_pc := <[instr st := pc st]> (instr_to_pc st) in
      let pc' :=
        if is_push b then
          let push_width := b - 0x5F in
          (pc st + Z.to_nat push_width)%nat
        else pc st in
      scan bs (mkScan (pc' + 1) (instr st + 1) instr_to_pc) }.
Proof.
  apply lookup_lt_Some in Hb. subst pc'. simpl. destruct (is_push b); lia.
Qed.

Definition scan_bytes (bs : list Z) : scan_state := scan bs (mkScan 0 0 ∅).

(** [len(fields) > k and fields[k] != ''] *)
Definition field_set (fields : list string) (k : nat) : option string :=
  match fields !! k with
  | Some v => if String.eqb v "" then None else Some v
  | None => None
  end.

(** One turn of the loop over the segments: the entry after [instr_srcmap],
    given the entry before it. *)
Definition decode_segment (prev : srcmap_entry) (instr_srcmap : string)
  : result srcmap_entry :=
  let '(s, l, f, j, m) := prev in
  let fields := Py.split ":" instr_srcmap in
  s ← match field_set fields 0 with Some v => Py.int v | None => OK s end;
  l ← match field_set fields 1 with Some v => Py.int v | None => OK l end;
  f ← match field_set fields 2 with Some v => Py.int v | None => OK f end;
  j ← match field_set fields 3 with Some v => OK v | None => OK j end;
  m ← match field_set fields 4 with Some v => Py.int v | None => OK m end;
  OK (s, l, f, j, m).

Fixpoint decode_segments (i : nat) (prev : srcmap_entry) (segments : list string)
  (_srcmap : gmap nat srcmap_entry) : result (gmap nat srcmap_entry) :=
  match segments with
  | [] => OK _srcmap
  | instr_srcmap :: segments' =>
      e ← decode_segment prev instr_srcmap;
      decode_segments (S i) e segments' (<[i := e]> _srcmap)
  end.

Definition decode_srcmap (raw_sourcemap : string) : result (gmap nat srcmap_entry) :=
  let instrs_srcmap := Py.split ";" raw_sourcemap in
  decode_segments 0 (0, 0, 0, EmptyString, 0) instrs_srcmap ∅.

Definition srcmap (self : t) : result (gmap nat srcmap_entry) :=
  match raw_sourcemap self with
  | JNull => OK ∅
  | raw =>
      if (0 <? String.length (bytecode self))%nat then
        bs ← mapM_result (Py.int_base 16) (pairs (bytecode self));
        let _ := scan_bytes bs in
        instrs ← Json.str_receiver raw;
        decode_srcmap instrs
      else OK ∅
  end.

(** *** [digest] *)

Definition digest (self : t) : string :=
  hash_str (name self +:+ " - " +:+ Json.dumps (contract_json self)).

(** *** [method_sentences] *)

(** [[x for x in xs if x]] on the rules of the methods *)
Definition some_rules (rules : list (option KSentence)) : list KSentence :=
  omap (fun r => r) rules.

Definition method_application_production (self : t) : KSentence :=
  KProduction (mkKSort "Bytes")
    [KNonTerminal (sort (name self)); KTerminal "."; KNonTerminal (sort_method (name self))]
    (Some (klabel_method (name self)))
    [("function"%string, ""%string); ("symbol"%string, ""%string)].

(** The rule of one method, as [method_sentences] asks for it. *)
Definition method_rule (self : t) (method : Method.t) : result (option KSentence) :=
  Method.rule method (KApply (klabel (name self)) []) (klabel_method (name self)) (name self).

Definition method_sentences (self : t) : result (list KSentence) :=
  let res := [method_application_production self] in
  productions ← mapM_result Method.production (methods self);
  let res := res ++ productions in
  method_rules ← mapM_result (method_rule self) (methods self);
  let res := res ++ some_rules method_rules in
  let res := res ++ map Method.selector_alias_rule (methods self) in
  OK (if (1 <? length res)%nat then res else []).

(** *** [method_by_name] *)

Definition multiple_methods_message (name : string) : string :=
  "Found multiple methods with name " +:+ name +:+ ", expected at most one".

Definition method_by_name (self : t) (name : string) : result (option Method.t) :=
  let methods :=
    filter (fun method => Method.name method = "setUp"%string) (methods self) in
  if (1 <? length methods)%nat then Raise (ValueError (multiple_methods_message name))
  else
    match methods with
    | [] => OK None
    | m :: _ => OK (Some m)
    end.

End Contract.

(** ** Predicates used in the statements *)

(** The table of a scan state is dense and increasing: its keys are the
    instruction indices below [instr], every recorded program counter is
    below [pc], and a later instruction has a larger program counter. *)
Definition dense_increasing (st : Contract.scan_state) : Prop :=
  let m := Contract.instr_to_pc st in
  (∀ i : nat, is_Some (m !! i) ↔ (i < Contract.instr st)%nat)
  ∧ (∀ (i p : nat), m !! i = Some p → (p < Contract.pc st)%nat)
  ∧ (∀ (i j p q : nat), (i < j)%nat → m !! i = Some p → m !! j = Some q → (p < q)%nat).

(** The slot of the first entry labelled [k]. *)
Fixpoint first_slot (k : string) (entries : list (string * Z)) : option Z :=
  match entries with
  | [] => None
  | (l, s) :: entries' => if String.eqb l k then Some s else first_slot k entries'
  end.

(** The labels of the entries that repeat a label of [seen] or of an earlier
    entry, in order. *)
Fixpoint repeated_labels (seen : list string) (entries : list (string * Z))
  : list string :=
  match entries with
  | [] => []
  | (l, _) :: entries' =>
      if bool_decide (l ∈ seen) then l :: repeated_labels seen entries'
      else repeated_labels (l :: seen) entries'
  end.

(** An entry of [storageLayout.storage], and an artifact that holds such
    entries. *)
Definition storage_entry (e : string * Z) : JSON :=
  JDict [("label"%string, JStr (fst e)); ("slot"%string, JInt (snd e))].

Definition storage_artifact (entries : list (string * Z)) : JSON :=
  JDict [("storageLayout"%string,
          JDict [("storage"%string, JList (map storage_entry entries))])].

(** A numeric field of a segment: empty or absent, the value is that of
    the entry before; otherwise it is the integer written in the field. *)
Definition int_field (fields : list string) (k : nat) (prev e : Z) : Prop :=
  match fields !! k with
  | Some v => if String.eqb v "" then e = prev else Py.int v = OK e
  | None => e = prev
  end.

(** The same for the jump tag, which is kept as it is written. *)
Definition str_field (fields : list string) (k : nat) (prev e : string) : Prop :=
  match fields !! k with
  | Some v => if String.eqb v "" then e = prev else e = v
  | None => e = prev
  end.

(** Entry [e] follows entry [prev] through [segment]: each of the five
    fields is inherited or read, independently of the others. *)
Definition inherits (prev : srcmap_entry) (segment : string) (e : srcmap_entry) : Prop :=
  let fields := Py.split ":" segment in
  let '(s, l, f, j, m) := prev in
  let '(s', l', f', j', m') := e in
  int_field fields 0 s s' ∧ int_field fields 1 l l' ∧ int_field fields 2 f f'
  ∧ str_field fields 3 j j' ∧ int_field fields 4 m m'.

(** The numeric fields of a segment, where they are written, are integers. *)
Definition numeric_fields_ok (segment : string) : bool :=
  forallb
    (fun k =>
       match Contract.field_set (Py.split ":" segment) k with
       | Some v => is_OK (Py.int v)
       | None => true
       end)
    [0; 1; 2; 4]%nat.

Definition srcmap_defaults : srcmap_entry := (0, 0, 0, EmptyString, 0).

(** The entry before entry [i] of a decoded source map. *)
Definition entry_before (m : gmap nat srcmap_entry) (i : nat) : srcmap_entry :=
  match i with
  | O => srcmap_defaults
  | S i' => default srcmap_defaults (m !! i')
  end.

(** ** Artifacts used in the examples *)

Definition abi_input (name type : string) : JSON :=
  JDict [("name"%string, JStr name); ("type"%string, JStr type)].

Definition abi_tuple (name type : string) (components : list JSON) : JSON :=
  JDict [("name"%string, JStr name); ("type"%string, JStr type);
         ("components"%string, JList components)].

Definition abi_function (name : string) (inputs : list JSON) (mutability : string) : JSON :=
  JDict [("type"%string, JStr "function"); ("name"%string, JStr name);
         ("inputs"%string, JList inputs); ("stateMutability"%string, JStr mutability)].

(** A compiler artifact with the given ABI and selector table. *)
Definition artifact (abi : list JSON) (selectors : list (string * string)) : JSON :=
  JDict [("id"%string, JInt 0);
         ("ast"%string, JDict [("absolutePath"%string, JStr "C.sol")]);
         ("abi"%string, JList abi);
         ("evm"%string,
          JDict [("deployedBytecode"%string,
                  JDict [("object"%string, JStr "0x6000");
                         ("sourceMap"%string, JStr "1:2:0;;3:4:1")]);
                 ("methodIdentifiers"%string,
                  JDict (map (fun kv => (fst kv, JStr (snd kv))) selectors))])].

(** A method with an argument of type [uint9]. *)
Definition uint9_artifact : JSON :=
  artifact [abi_function "f" [abi_input "a" "uint9"] "nonpayable"]
    [("f(uint9)"%string, "b3de648b"%string)].

Definition uint9_method : Method.t :=
  {| Method.name := "f"; Method.id := 0xb3de648b; Method.sort := mkKSort "CMethod";
     Method.arg_names := ["V0_a"%string]; Method.arg_types := ["uint9"%string];
     Method.contract_name := "C"; Method.payable := false;
     Method.signature := "f(uint9)" |}.

Definition uint9_contract : Contract.t :=
  {| Contract.name := "C"; Contract.contract_json := uint9_artifact;
     Contract.contract_id := JInt 0; Contract.contract_path := JStr "C.sol";
     Contract.bytecode := "6000"; Contract.raw_sourcemap := JStr "1:2:0;;3:4:1";
     Contract.methods := [uint9_method]; Contract.fields := ∅ |}.




(** A method that takes a tuple, and one that takes a [uint8]. *)
Definition tuple_artifact : JSON :=
  artifact
    [abi_function "g" [abi_input "n" "uint8"] "payable";
     abi_function "f" [abi_tuple "p" "tuple" [abi_input "x" "uint256"]] "nonpayable"]
    [("f((uint256))"%string, "0a1b2c3d"%string); ("g(uint8)"%string, "00000010"%string)].

Definition tuple_method : Method.t :=
  {| Method.name := "f"; Method.id := 0x0a1b2c3d; Method.sort := mkKSort "CMethod";
     Method.arg_names := ["V0_p"%string]; Method.arg_types := ["tuple"%string];
     Method.contract_name := "C"; Method.payable := false;
     Method.signature := "f((uint256))" |}.

Definition uint8_method : Method.t :=
  {| Method.name := "g"; Method.id := 16; Method.sort := mkKSort "CMethod";
     Method.arg_names := ["V0_n"%string]; Method.arg_types := ["uint8"%string];
     Method.contract_name := "C"; Method.payable := true;
     Method.signature := "g(uint8)" |}.

Definition tuple_contract : Contract.t :=
  {| Contract.name := "C"; Contract.contract_json := tuple_artifact;
     Contract.contract_id := JInt 0; Contract.contract_path := JStr "C.sol";
     Contract.bytecode := "6000"; Contract.raw_sourcemap := JStr "1:2:0;;3:4:1";
     Contract.methods := [tuple_method; uint8_method]; Contract.fields := ∅ |}.


#[local] Unset Elimination Schemes.
#[local] Set Elimination Schemes.

(** The order of the items of a dictionary by their keys. *)
Definition key_le {A} (a b : string * A) : Prop := String.le (fst a) (fst b).

(** The artifact [j], a dictionary, with a storage layout. *)
Definition with_storage (j : JSON) (entries : list (string * Z)) : JSON :=
  match j with
  | JDict kvs =>
      JDict (kvs ++ [("storageLayout"%string,
                      JDict [("storage"%string, JList (map storage_entry entries))])])
  | _ => j
  end.

(** A model with the given name and artifact, and nothing else. *)
Definition bare_contract (name : string) (contract_json : JSON) : Contract.t :=
  {| Contract.name := name; Contract.contract_json := contract_json;
     Contract.contract_id := JInt 0; Contract.contract_path := JStr "C.sol";
     Contract.bytecode := ""; Contract.raw_sourcemap := JNull;
     Contract.methods := []; Contract.fields := ∅ |}.

(** The strings of [n] hexadecimal digits. *)
Definition hex_chars : list ascii := map Json.hex_digit (seq 0 16).

Fixpoint hex_strings (n : nat) : list string :=
  match n with
  | O => [EmptyString]
  | S n' => c ← hex_chars; s ← hex_strings n'; [String c s]
  end.

(** ** Further artifacts *)

(** An artifact whose source map has a field that is not an integer. *)
Definition bad_srcmap_artifact : JSON :=
  JDict [("id"%string, JInt 0);
         ("ast"%string, JDict [("absolutePath"%string, JStr "C.sol")]);
         ("abi"%string, JList []);
         ("evm"%string,
          JDict [("deployedBytecode"%string,
                  JDict [("object"%string, JStr "0x6000");
                         ("sourceMap"%string, JStr "1:x")]);
                 ("methodIdentifiers"%string, JDict [])])].


(** ** Artifacts described by their functions *)

(** An argument of a function: one of an elementary type or of an array of
    one, whose type is written as it is, or a tuple, or a dynamic array of
    tuples, of such arguments. *)
Inductive abi_arg : Type :=
| Arg (name type : string)
| ArgTuple (name : string) (dynamic_array : bool) (components : list (string * string)).


Definition arg_type (a : abi_arg) : string :=
  match a with
  | Arg _ t => t
  | ArgTuple _ dynamic_array _ => if dynamic_array then "tuple[]" else "tuple"
  end.

Definition arg_json (a : abi_arg) : JSON :=
  match a with
  | Arg n t => abi_input n t
  | ArgTuple n _ components =>
      abi_tuple n (arg_type a) (map (fun c => abi_input (fst c) (snd c)) components)
  end.

(** The type of the argument in the signature of the function. *)
Definition arg_signature (a : abi_arg) : string :=
  match a with
  | Arg _ t => t
  | ArgTuple _ dynamic_array components =>
      "(" +:+ Py.join "," (map snd components) +:+ ")"
          +:+ (if dynamic_array then "[]" else "")
  end.

(** A type that is not a tuple and whose array size, if there is one, is an
    integer. *)
Definition elementary (t : string) : bool :=
  negb (Py.startswith t "tuple")
  && (negb (Re.match_array t)
      || (let array_size_str := Py.drop_last (nth 1 (Py.split "[" t) "") in
          String.eqb array_size_str "" || is_OK (Py.int array_size_str))).

Definition arg_wf (a : abi_arg) : bool :=
  match a with
  | Arg _ t => elementary t
  | ArgTuple _ _ components => forallb (fun c => elementary (snd c)) components
  end.

(** A function of the ABI, with its entry in the selector table. *)
Record abi_fn : Type := mkFn {
  fn_name : string;
  fn_args : list abi_arg;
  fn_mutability : string;
  fn_selector : string
}.

Definition fn_json (f : abi_fn) : JSON :=
  abi_function (fn_name f) (map arg_json (fn_args f)) (fn_mutability f).

Definition fn_signature (f : abi_fn) : string :=
  fn_name f +:+ "(" +:+ Py.join "," (map arg_signature (fn_args f)) +:+ ")".







(** ** Predicates on the methods of a model *)

(** The order in which the constructor leaves the methods. *)
Definition signature_le (a b : Method.t) : Prop :=
  String.le (Method.signature a) (Method.signature b).

(** An entry of the ABI that the constructor takes for a function. *)
Definition is_function (entry : JSON) : bool :=
  match Json.getitem entry "type" with
  | OK (JStr "function") => true
  | _ => false
  end.
(** * Properties *)

(** ** The instruction indexer *)

Lemma is_push_range (b : Z) : Contract.is_push b = true ↔ 0x60 ≤ b ≤ 0x7E.
Proof. unfold Contract.is_push. lia. Qed.

Lemma dense_increasing_init : dense_increasing (Contract.mkScan 0 0 ∅).
Proof.
  repeat split; simpl.
  - intros [p Hp]. by rewrite lookup_empty in Hp.
  - lia.
  - intros i p. by rewrite lookup_empty.
  - intros i j p q _. by rewrite lookup_empty.
Qed.

Lemma dense_increasing_step (st : Contract.scan_state) (pc' : nat) :
  (Contract.pc st < pc')%nat →
  dense_increasing st →
  dense_increasing
    (Contract.mkScan pc' (Contract.instr st + 1)
       (<[Contract.instr st := Contract.pc st]> (Contract.instr_to_pc st))).
Proof.
  intros Hpc (Hdom & Hlt & Hinc). repeat split; simpl.
  - intros Hi. destruct (decide (i = Contract.instr st)) as [->|Hne]; [lia|].
    rewrite lookup_insert_ne in Hi by done. apply Hdom in Hi. lia.
  - intros Hi. destruct (decide (i = Contract.instr st)) as [->|Hne].
    + rewrite lookup_insert_eq. eauto.
    + rewrite lookup_insert_ne by done. apply Hdom. lia.
  - intros i p. destruct (decide (i = Contract.instr st)) as [->|Hne].
    + rewrite lookup_insert_eq. intros [= <-]. lia.
    + rewrite lookup_insert_ne by done. intros Hp. apply Hlt in Hp. lia.
  - intros i j p q Hij.
    destruct (decide (i = Contract.instr st)) as [->|Hi];
      destruct (decide (j = Contract.instr st)) as [->|Hj];
      rewrite ?lookup_insert_eq, ?lookup_insert_ne by done.
    + lia.
    + intros _ Hq. assert (is_Some (Contract.instr_to_pc st !! j)) as Hs by eauto.
      apply Hdom in Hs. lia.
    + intros Hp [= <-]. eauto.
    + eauto.
Qed.

Lemma scan_dense_increasing (bs : list Z) (st : Contract.scan_state) :
  dense_increasing st → dense_increasing (Contract.scan bs st).
Proof.
  funelim (Contract.scan bs st); intros Hst; [|done].
  apply H, dense_increasing_step; [|done].
  destruct (Contract.is_push b); lia.
Qed.

(** One turn of the loop: the byte at [pc] is recorded as instruction
    [instr]; a byte for which [is_push] holds moves [pc] by [b - 0x5F] before
    the step by one that every turn makes. *)
Lemma scan_step (bs : list Z) (st : Contract.scan_state) (b : Z) :
  bs !! Contract.pc st = Some b →
  Contract.scan bs st =
  Contract.scan bs
    (Contract.mkScan
       ((if Contract.is_push b then Contract.pc st + Z.to_nat (b - 0x5F) else Contract.pc st) + 1)
       (Contract.instr st + 1)
       (<[Contract.instr st := Contract.pc st]> (Contract.instr_to_pc st))).
Proof.
  intros Hb. etrans; [apply Contract.scan_equation_1|].
  destruct (Logic.inspect (bs !! Contract.pc st)) as [[b'|] Hb'].
  - rewrite Contract.scan_clause_1_equation_1. cbv zeta.
    assert (b' = b) as -> by congruence. done.
  - congruence.
Qed.

(** The loop stops only at the end of the buffer, or past it when the data
    of a last push is incomplete. *)
Lemma scan_stops_at_end (bs : list Z) (st : Contract.scan_state) :
  (length bs ≤ Contract.pc (Contract.scan bs st))%nat.
Proof.
  funelim (Contract.scan bs st); [done|].
  by apply lookup_ge_None.
Qed.

(** Indices are dense from 0 and program counters increase with them. *)
Lemma scan_bytes_dense_increasing (bs : list Z) :
  dense_increasing (Contract.scan_bytes bs).
Proof. apply scan_dense_increasing, dense_increasing_init. Qed.

(** Five [PUSH1 0x00] decode to five instructions at 0, 2, 4, 6, 8. *)
Lemma scan_push1_five :
  let r := Contract.scan_bytes [0x60; 0; 0x60; 0; 0x60; 0; 0x60; 0; 0x60; 0] in
  Contract.instr r = 5%nat
  ∧ Contract.instr_to_pc r =
    <[0%nat := 0%nat]> (<[1%nat := 2%nat]> (<[2%nat := 4%nat]> (<[3%nat := 6%nat]>
      (<[4%nat := 8%nat]> ∅)))).
Proof. split; [reflexivity|]. apply map_eq. intros i. vm_compute. reflexivity. Qed.

(** C1 (defect of the code): the test of the loop is [0x60 <= b < 0x7F], so
    the byte 0x7F, PUSH32, is not treated as a push and its 32 bytes of data
    are decoded as instructions.  On PUSH32, 32 bytes of data and a STOP the
    scan records 34 instructions, the second one at program counter 1, where
    decoding PUSH1..PUSH32 gives two instructions, at 0 and 33. *)
Theorem scan_push32_data_decoded :
  let bs := 0x7F :: repeat 0x01 32 ++ [0x00] in
  Contract.is_push 0x7F = false
  ∧ Contract.instr (Contract.scan_bytes bs) = 34%nat
  ∧ Contract.instr_to_pc (Contract.scan_bytes bs) !! 1%nat = Some 1%nat
  ∧ Contract.instr_to_pc (Contract.scan_bytes bs) !! 33%nat = Some 33%nat.
Proof. repeat split; vm_compute; reflexivity. Qed.

(** PUSH31, the last byte of the range of the code, is skipped with its 31
    bytes of data. *)
Lemma scan_push31_data_skipped :
  let bs := 0x7E :: repeat 0x01 31 ++ [0x00] in
  Contract.instr (Contract.scan_bytes bs) = 2%nat
  ∧ Contract.instr_to_pc (Contract.scan_bytes bs) !! 1%nat = Some 32%nat.
Proof. repeat split; vm_compute; reflexivity. Qed.

(** ** The type classifier and the range predicates *)

Lemma endswith_neq (type_label lit : string) (c : ascii) :
  Py.endswith type_label c = true → Py.endswith lit c = false →
  String.eqb type_label lit = false.
Proof. intros H1 H2. apply String.eqb_neq. intros ->. congruence. Qed.

(** C10: a type string that ends in a closing bracket is never rejected: the
    integer classifier answers no, the base sort is the catch-all [K], and
    the predicate generator answers that there is no predicate. *)
Theorem array_type_never_rejected (type_label : string) (term : KInner) :
  Py.endswith type_label "]" = true →
  _evm_base_sort_int type_label = OK false
  ∧ _evm_base_sort type_label = OK (mkKSort "K")
  ∧ _range_predicate_uint term type_label = OK (false, None)
  ∧ _range_predicate term type_label = OK None.
Proof.
  intros H.
  assert (Hint : _evm_base_sort_int type_label = OK false).
  { unfold _evm_base_sort_int. rewrite H, !andb_false_r.
    by rewrite (endswith_neq _ "address" _ H), (endswith_neq _ "bool" _ H). }
  assert (Huint : _range_predicate_uint term type_label = OK (false, None)).
  { unfold _range_predicate_uint. by rewrite H, andb_false_r. }
  repeat split; [done| |done|].
  - unfold _evm_base_sort. rewrite Hint. simpl.
    by rewrite (endswith_neq _ "bytes" _ H), (endswith_neq _ "string" _ H).
  - unfold _range_predicate. rewrite Huint. simpl.
    by rewrite (endswith_neq _ "address" _ H), (endswith_neq _ "bool" _ H),
      (endswith_neq _ "bytes4" _ H), (endswith_neq _ "bytes32" _ H),
      (endswith_neq _ "uint256" _ H), (endswith_neq _ "int256" _ H),
      (endswith_neq _ "bytes" _ H), (endswith_neq _ "string" _ H).
Qed.

Lemma array_type_never_rejected_witness :
  Py.endswith "uint7[]" "]" = true
  ∧ _evm_base_sort "uint7[]" = OK (mkKSort "K")
  ∧ _range_predicate (KVariable "x") "uint7[]" = OK None
  ∧ _evm_base_sort "bytes5[]" = OK (mkKSort "K")
  ∧ _range_predicate (KVariable "x") "bytes5[]" = OK None.
Proof.
  pose proof (array_type_never_rejected "uint7[]" (KVariable "x") eq_refl) as (_ & H1 & _ & H2).
  pose proof (array_type_never_rejected "bytes5[]" (KVariable "x") eq_refl) as (_ & H3 & _ & H4).
  repeat split; assumption.
Defined.

(** The widths that the classifier accepts are 8, 16, ..., 256. *)
Lemma valid_width_cases (N : Z) :
  0 < N ≤ 256 → N mod 8 = 0 →
  In N (map (fun k => 8 * Z.of_nat k) (seq 1 32)).
Proof.
  intros HN Hmod. apply in_map_iff. exists (Z.to_nat (N / 8)).
  pose proof (Z.div_mod N 8 ltac:(lia)) as Hdiv.
  split; [lia|]. apply in_seq. lia.
Qed.

(** On each of them [int] reads back what [str] prints, and the type string
    does not end in a bracket. *)
Lemma valid_widths_read_back :
  forallb
    (fun N =>
       match Py.int (Py.str N) with OK n => n =? N | Raise _ => false end
       && negb (Py.endswith ("uint" +:+ Py.str N) "]"))
    (map (fun k => 8 * Z.of_nat k) (seq 1 32)) = true.
Proof. vm_compute. reflexivity. Qed.

Lemma valid_width_read_back (N : Z) :
  0 < N ≤ 256 → N mod 8 = 0 →
  Py.int (Py.str N) = OK N ∧ Py.endswith ("uint" +:+ Py.str N) "]" = false.
Proof.
  intros HN Hmod.
  pose proof valid_widths_read_back as H. rewrite forallb_forall in H.
  specialize (H N (valid_width_cases N HN Hmod)).
  apply andb_true_iff in H as [H1 H2]. apply negb_true_iff in H2.
  split; [|done]. destruct (Py.int (Py.str N)) as [n|]; [|done].
  apply Z.eqb_eq in H1. by subst.
Qed.

(** C2: for a width [N] with [0 < N <= 256] and [N mod 8 = 0] the predicate
    generated for the type [uintN] is the unsigned range over
    [[0, 2^N - 1]]: it accepts a value exactly when the value lies in that
    interval; it accepts 0 and [2^N - 1] and rejects [2^N] and -1. *)
Theorem uint_range_predicate (N : Z) (x : string) :
  0 < N ≤ 256 → N mod 8 = 0 →
  ∃ p : KInner,
    _range_predicate (KVariable x) ("uint" +:+ Py.str N) = OK (Some p)
    ∧ p = KEVM.range_uint N (KVariable x)
    ∧ (∀ env : string → Z,
         KEVM.holds env p = Some (bool_decide (0 ≤ env x ≤ 2 ^ N - 1)))
    ∧ KEVM.holds (fun _ => 0) p = Some true
    ∧ KEVM.holds (fun _ => 2 ^ N - 1) p = Some true
    ∧ KEVM.holds (fun _ => 2 ^ N) p = Some false
    ∧ KEVM.holds (fun _ => -1) p = Some false.
Proof.
  intros HN Hmod. destruct (valid_width_read_back N HN Hmod) as [Hint Hend].
  exists (KEVM.range_uint N (KVariable x)).
  assert (Hholds : ∀ env : string → Z,
    KEVM.holds env (KEVM.range_uint N (KVariable x))
    = Some (bool_decide (0 ≤ env x ≤ 2 ^ N - 1))).
  { intros env. unfold KEVM.range_uint, KEVM.holds, intToken, KEVM.eval_int.
    simpl. rewrite Hint. simpl. f_equal.
    destruct (bool_decide_reflect (0 ≤ env x ≤ 2 ^ N - 1)); lia. }
  assert (0 < 2 ^ N) by (apply Z.pow_pos_nonneg; lia).
  split; [|split; [done|split; [done|]]].
  - unfold _range_predicate, _range_predicate_uint.
    replace (Py.startswith ("uint" +:+ Py.str N) "uint") with true
      by (cbv [Py.startswith String.append]; simpl; by destruct (Py.str N)).
    change (Py.drop 4 ("uint" +:+ Py.str N)) with (Py.str N).
    rewrite Hend, Hint. simpl.
    replace ((0 <? N) && (N <=? 256) && (N mod 8 =? 0)) with true by lia.
    done.
  - rewrite !Hholds. repeat split; f_equal;
      match goal with |- bool_decide ?P = _ => destruct (bool_decide_reflect P) end; lia.
Qed.

Lemma uint_range_predicate_witness :
  ∃ p : KInner,
    _range_predicate (KVariable "V0_x") "uint8" = OK (Some p)
    ∧ KEVM.holds (fun _ => 255) p = Some true
    ∧ KEVM.holds (fun _ => 256) p = Some false.
Proof.
  destruct (uint_range_predicate 8 "V0_x" ltac:(lia) eq_refl)
    as (p & Hp & _ & _ & _ & H1 & H2 & _).
  exists p. repeat split; assumption.
Defined.

(** ** The storage fields *)

Lemma collect_fields_from (name : string) (entries : list (string * Z))
  (acc : gmap string Z) (log seen : list string) :
  (∀ x, x ∈ seen ↔ is_Some (acc !! x)) →
  let r := fold_left (Contract.collect_field name) entries (acc, log) in
  (∀ k, fst r !! k = match acc !! k with Some s => Some s | None => first_slot k entries end)
  ∧ snd r = log ++ map (Contract.duplicate_field_message name) (repeated_labels seen entries).
Proof.
  revert acc log seen.
  induction entries as [|[l s] entries IH]; intros acc log seen Hdom; simpl.
  - split; [intros k; by destruct (acc !! k)|by rewrite app_nil_r].
  - destruct (bool_decide_reflect (is_Some (acc !! l))) as [Hsome|Hnone].
    + rewrite bool_decide_eq_true_2 by by apply Hdom.
      destruct (IH acc (log ++ [Contract.duplicate_field_message name l]) seen Hdom)
        as [IH1 IH2].
      split.
      * intros k. rewrite IH1. destruct (acc !! k) eqn:Hk; [done|].
        destruct (String.eqb_spec l k) as [->|]; [|done].
        destruct Hsome as [? ?]. congruence.
      * rewrite IH2. by rewrite <- app_assoc.
    + rewrite bool_decide_eq_false_2 by (by rewrite Hdom).
      destruct (IH (<[l:=s]> acc) log (l :: seen)) as [IH1 IH2].
      { intros x. rewrite elem_of_cons, Hdom.
        destruct (decide (l = x)) as [->|Hne].
        - rewrite lookup_insert_eq. split; eauto.
        - rewrite lookup_insert_ne by done. split; [intros [?|?]; [congruence|done]|eauto]. }
      split; [|done].
      intros k. rewrite IH1. destruct (String.eqb_spec l k) as [->|Hne].
      * rewrite lookup_insert_eq. apply eq_None_not_Some in Hnone. by rewrite Hnone.
      * by rewrite lookup_insert_ne.
Qed.

(** The loop over the entries keeps, for each label, the slot of its first
    entry, and logs one message for each entry that repeats a label. *)
Lemma collect_fields_first_wins (name : string) (entries : list (string * Z)) :
  (∀ k, fst (Contract.collect_fields name entries) !! k = first_slot k entries)
  ∧ snd (Contract.collect_fields name entries)
    = map (Contract.duplicate_field_message name) (repeated_labels [] entries).
Proof.
  destruct (collect_fields_from name entries ∅ [] []) as [H1 H2].
  { intros x. rewrite lookup_empty. split; [by intros ?%elem_of_nil|by intros [? ?]]. }
  split; [|done]. intros k. rewrite H1. by rewrite lookup_empty.
Qed.

(** Reading the entries of the artifact raises nothing. *)
Lemma fields_list_storage (entries : list (string * Z)) :
  Contract.fields_list (JList (map storage_entry entries)) = OK entries.
Proof.
  unfold Contract.fields_list. simpl.
  induction entries as [|[l s] entries IH]; [done|].
  simpl in *. by rewrite IH.
Qed.

(** A key added at the end of an artifact leaves the other keys as they
    are. *)
Lemma assoc_app_fresh (k k' : string) (v : JSON) (kvs : list (string * JSON)) :
  k ≠ k' → Json.assoc k (kvs ++ [(k', v)]) = Json.assoc k kvs.
Proof.
  intros Hne. induction kvs as [|[k0 v0] kvs IH]; simpl.
  - destruct (String.eqb_spec k' k); [congruence|done].
  - by rewrite IH.
Qed.

Lemma assoc_app_new (k : string) (v : JSON) (kvs : list (string * JSON)) :
  Json.assoc k kvs = None → Json.assoc k (kvs ++ [(k, v)]) = Some v.
Proof.
  induction kvs as [|[k0 v0] kvs IH]; simpl.
  - by rewrite String.eqb_refl.
  - destruct (String.eqb k0 k); [done|exact IH].
Qed.

(** The methods depend on [evm] through its selector table only. *)
Lemma init_methods_ext (cn : string) (evm evm' : JSON) (abi : list JSON) :
  Json.getitem evm' "methodIdentifiers" = Json.getitem evm "methodIdentifiers" →
  Contract.init_methods cn evm' abi = Contract.init_methods cn evm abi.
Proof.
  intros Hids. induction abi as [|method abi IH]; [done|].
  cbn [Contract.init_methods]. rewrite Hids, IH. reflexivity.
Qed.

Lemma getitem_with_storage (kvs : list (string * JSON)) (entries : list (string * Z))
  (k : string) :
  k ≠ "storageLayout"%string →
  Json.getitem (with_storage (JDict kvs) entries) k = Json.getitem (JDict kvs) k.
Proof. intros Hne. simpl. by rewrite assoc_app_fresh. Qed.

Lemma init_fields_with_storage (cn : string) (kvs : list (string * JSON))
  (entries : list (string * Z)) :
  Json.assoc "storageLayout" kvs = None →
  Contract.init_fields cn (with_storage (JDict kvs) entries)
  = OK (Contract.collect_fields cn entries).
Proof.
  intros Hnone. unfold Contract.init_fields. cbn [with_storage Json.contains Json.getitem].
  rewrite (assoc_app_new _ _ _ Hnone). simpl.
  rewrite fields_list_storage. reflexivity.
Qed.

Lemma init_fields_without_layout (cn : string) (kvs : list (string * JSON)) :
  Json.assoc "storageLayout" kvs = None →
  Contract.init_fields cn (JDict kvs) = OK (∅, []).
Proof.
  intros Hnone. unfold Contract.init_fields. cbn [Json.contains]. rewrite Hnone. reflexivity.
Qed.

(** Construction on an artifact with a storage layout added is construction
    on the artifact, with the table of the layout for [fields]. *)
Lemma init_with_storage_of_init (cn : string) (kvs : list (string * JSON)) (foundry : bool)
  (entries : list (string * Z)) :
  Json.assoc "storageLayout" kvs = None →
  Contract.init cn (with_storage (JDict kvs) entries) foundry
  = (self ← Contract.init cn (JDict kvs) foundry;
     OK {| Contract.name := Contract.name self;
           Contract.contract_json := with_storage (JDict kvs) entries;
           Contract.contract_id := Contract.contract_id self;
           Contract.contract_path := Contract.contract_path self;
           Contract.bytecode := Contract.bytecode self;
           Contract.raw_sourcemap := Contract.raw_sourcemap self;
           Contract.methods := Contract.methods self;
           Contract.fields := fst (Contract.collect_fields cn entries) |}).
Proof.
  intros Hnone. unfold Contract.init.
  rewrite init_fields_with_storage, init_fields_without_layout by done.
  rewrite !getitem_with_storage by done.
  destruct foundry; cbn [negb]; unfold mbind, result_bind; cbv beta iota.
  - rewrite !getitem_with_storage by done.
    repeat case_match; simplify_eq; try done;
      match goal with
      | H : Contract.init_methods _ (with_storage _ _) _ = _ |- _ =>
          rewrite (init_methods_ext cn (JDict kvs) (with_storage (JDict kvs) entries)) in H
            by (by apply getitem_with_storage)
      end; simpl; congruence.
  - repeat case_match; simplify_eq; done.
Qed.

(** C8: for every list of storage-layout entries, added to any artifact
    that the constructor accepts, construction raises no error and the
    field table of the model maps each label to the slot of its first
    entry; an entry that repeats a label is skipped, and one message is
    logged for it.  The rest of the model is as without the layout.  The
    entries [x, 0] and [x, 1] give the table that maps [x] to 0 only, and
    one message. *)
Theorem storage_fields_first_wins (name : string) (contract_json : JSON) (foundry : bool)
  (self : Contract.t) (entries : list (string * Z)) :
  Contract.init name contract_json foundry = OK self →
  Json.contains "storageLayout" contract_json = OK false →
  ∃ self' : Contract.t,
    Contract.init name (with_storage contract_json entries) foundry = OK self'
    ∧ (∀ k, Contract.fields self' !! k = first_slot k entries)
    ∧ Contract.init_fields name (with_storage contract_json entries)
      = OK (Contract.fields self',
            map (Contract.duplicate_field_message name) (repeated_labels [] entries))
    ∧ Contract.methods self' = Contract.methods self
    ∧ Contract.bytecode self' = Contract.bytecode self
    ∧ Contract.raw_sourcemap self' = Contract.raw_sourcemap self
    ∧ (entries = [("x"%string, 0); ("x"%string, 1)] →
       Contract.fields self' = {[ "x"%string := 0 ]}
       ∧ Contract.init_fields name (with_storage contract_json entries)
         = OK ({[ "x"%string := 0 ]}, [Contract.duplicate_field_message name "x"])).
Proof.
  intros Hinit Hnone.
  destruct contract_json as [| | | | |kvs]; try discriminate Hinit.
  cbn [Json.contains] in Hnone.
  assert (Hassoc : Json.assoc "storageLayout" kvs = None).
  { destruct (Json.assoc "storageLayout" kvs) eqn:E; [|done].
    rewrite bool_decide_eq_true_2 in Hnone by eauto. discriminate Hnone. }
  clear Hnone.
  destruct (collect_fields_first_wins name entries) as [H1 H2].
  eexists. rewrite init_with_storage_of_init, Hinit by done.
  split; [reflexivity|]. cbn [Contract.fields Contract.methods Contract.bytecode
                               Contract.raw_sourcemap].
  assert (Hfields : Contract.init_fields name (with_storage (JDict kvs) entries)
                    = OK ((Contract.collect_fields name entries).1,
                          map (Contract.duplicate_field_message name)
                            (repeated_labels [] entries))).
  { rewrite init_fields_with_storage by done. rewrite <- H2.
    by destruct (Contract.collect_fields name entries). }
  assert (Hx : entries = [("x"%string, 0); ("x"%string, 1)] →
               (Contract.collect_fields name entries).1 = {[ "x"%string := 0 ]}).
  { intros ->. apply map_eq. intros k. rewrite H1. cbn [first_slot].
    destruct (String.eqb_spec "x" k) as [<-|Hne].
    - by rewrite lookup_singleton_eq.
    - by rewrite lookup_singleton_ne. }
  repeat split; try done.
  - by apply Hx.
  - rewrite Hfields. rewrite (Hx H). by subst entries.
Qed.

Lemma storage_fields_first_wins_witness :
  ∃ self' : Contract.t,
    Contract.init "C" (with_storage uint9_artifact [("x"%string, 0); ("x"%string, 1)]) false
    = OK self'
    ∧ Contract.fields self' = {[ "x"%string := 0 ]}
    ∧ Contract.methods self' = [uint9_method].
Proof.
  assert (Hinit : Contract.init "C" uint9_artifact false = OK uint9_contract)
    by (vm_compute; reflexivity).
  destruct (storage_fields_first_wins "C" uint9_artifact false uint9_contract
              [("x"%string, 0); ("x"%string, 1)] Hinit eq_refl)
    as (self' & H1 & _ & _ & H2 & _ & _ & H3).
  exists self'. split; [exact H1|]. split; [exact (proj1 (H3 eq_refl))|exact H2].
Defined.

(** The table of the model is the one that the loop collects. *)
Lemma init_fields_of_init (contract_name : string) (contract_json : JSON)
  (foundry : bool) (self : Contract.t) :
  Contract.init contract_name contract_json foundry = OK self →
  ∃ log, Contract.init_fields contract_name contract_json = OK (Contract.fields self, log).
Proof.
  unfold Contract.init. intros H. unfold mbind, result_bind in H.
  repeat case_match; simplify_eq; simpl;
    match goal with
    | H : Contract.init_fields _ _ = OK ?fl |- _ => destruct fl as [fields log]; by exists log
    end.
Qed.

Example init_with_storage :
  Contract.fields <$>
    Contract.init "C" (with_storage uint9_artifact [("x"%string, 0); ("x"%string, 1)]) false
  = OK {[ "x"%string := 0 ]}.
Proof. vm_compute. reflexivity. Qed.

(** The slots of a compiler artifact are decimal strings; they are read the
    same way. *)
Example storage_fields_string_slots :
  Contract.init_fields "C"
    (JDict [("storageLayout"%string,
       JDict [("storage"%string,
         JList [JDict [("label"%string, JStr "x"); ("slot"%string, JStr "0")];
                JDict [("label"%string, JStr "y"); ("slot"%string, JStr "1")];
                JDict [("label"%string, JStr "x"); ("slot"%string, JStr "2")]])])])
  = OK (<["y"%string := 1]> {[ "x"%string := 0 ]},
        [Contract.duplicate_field_message "C" "x"]).
Proof. vm_compute. reflexivity. Qed.

(** ** Looking a method up by name *)

(** C9: the lookup never reads its [name] argument: it looks for the methods
    named [setUp], returns [None] when there is none, the method when there
    is one, and raises when there are more; [name] only appears in the text
    of the error. *)
Theorem method_by_name_ignores_name (self : Contract.t) (name name' : string) :
  let setUps := filter (fun m => Method.name m = "setUp"%string) (Contract.methods self) in
  (setUps = [] → Contract.method_by_name self name = OK None)
  ∧ (∀ m, setUps = [m] → Contract.method_by_name self name = OK (Some m))
  ∧ ((1 < length setUps)%nat →
     Contract.method_by_name self name
     = Raise (ValueError (Contract.multiple_methods_message name)))
  ∧ (∀ r, Contract.method_by_name self name = OK r →
          Contract.method_by_name self name' = OK r)
  ∧ is_OK (Contract.method_by_name self name) = is_OK (Contract.method_by_name self name').
Proof.
  unfold Contract.method_by_name. simpl.
  destruct (filter _ (Contract.methods self)) as [|m [|m' l]]; simpl;
    repeat split; try done; try lia; congruence.
Qed.

(** ** The source map decoder *)

Lemma int_base_raises (base : Z) (s : string) (e : exn) :
  Py.int_base base s = Raise e → e = Py.invalid_literal base s.
Proof.
  unfold Py.int_base. destruct (Py.split_sign _) as [sign s2].
  destruct (Py.startswith _ _); [congruence|].
  destruct (Py.digits _ _ _ _ _) as [[v rest]|]; [|congruence].
  destruct (Py.all_space rest); congruence.
Qed.

Lemma int_field_step (fields : list string) (k : nat) (prev : Z) :
  match Contract.field_set fields k with Some v => is_OK (Py.int v) | None => true end = true →
  ∃ e, match Contract.field_set fields k with Some v => Py.int v | None => OK prev end = OK e
       ∧ int_field fields k prev e.
Proof.
  unfold Contract.field_set, int_field.
  destruct (fields !! k) as [v|]; [|eauto].
  destruct (String.eqb_spec v ""); [eauto|].
  destruct (Py.int v) as [e|]; [eauto|done].
Qed.

Lemma str_field_step (fields : list string) (k : nat) (prev : string) :
  ∃ e, match Contract.field_set fields k with Some v => OK v | None => OK prev end
       = (OK e : result string)
       ∧ str_field fields k prev e.
Proof.
  unfold Contract.field_set, str_field.
  destruct (fields !! k) as [v|]; [|eauto].
  destruct (String.eqb_spec v ""); eauto.
Qed.

Lemma decode_segment_inherits (prev : srcmap_entry) (segment : string) :
  numeric_fields_ok segment = true →
  ∃ e, Contract.decode_segment prev segment = OK e ∧ inherits prev segment e.
Proof.
  intros Hok. destruct prev as [[[[s l] f] j] m].
  unfold numeric_fields_ok in Hok. cbn [forallb] in Hok.
  apply andb_true_iff in Hok as [H0 Hok]. apply andb_true_iff in Hok as [H1 Hok].
  apply andb_true_iff in Hok as [H2 Hok]. apply andb_true_iff in Hok as [H4 _].
  unfold Contract.decode_segment, inherits.
  destruct (int_field_step _ 0 s H0) as (s' & -> & Hs).
  destruct (int_field_step _ 1 l H1) as (l' & -> & Hl).
  destruct (int_field_step _ 2 f H2) as (f' & -> & Hf).
  destruct (str_field_step (Py.split ":" segment) 3 j) as (j' & -> & Hj).
  destruct (int_field_step _ 4 m H4) as (m' & -> & Hm).
  exists (s', l', f', j', m'). simpl. done.
Qed.

Lemma decode_segments_inherit (segments : list string) :
  ∀ (i : nat) (prev : srcmap_entry) (m0 : gmap nat srcmap_entry),
    forallb numeric_fields_ok segments = true →
    ∃ m, Contract.decode_segments i prev segments m0 = OK m
      ∧ (∀ k, (k < i)%nat → m !! k = m0 !! k)
      ∧ (∀ k, (i + length segments ≤ k)%nat → m !! k = m0 !! k)
      ∧ (∀ j seg, segments !! j = Some seg →
           ∃ e, m !! (i + j)%nat = Some e
             ∧ inherits (match j with
                         | O => prev
                         | S j' => default srcmap_defaults (m !! (i + j')%nat)
                         end) seg e).
Proof.
  induction segments as [|seg0 segments IH]; intros i prev m0 Hok.
  - exists m0. simpl. repeat split; try done.
  - apply andb_true_iff in Hok as [Hok0 Hok].
    destruct (decode_segment_inherits prev seg0 Hok0) as (e & He & Hinh).
    destruct (IH (S i) e (<[i:=e]> m0) Hok) as (m & Hm & Hlo & Hhi & Hent).
    exists m. simpl. rewrite He. simpl. split; [done|].
    assert (Hi : m !! i = Some e).
    { rewrite Hlo by lia. apply lookup_insert_eq. }
    split; [|split].
    + intros k Hk. rewrite Hlo by lia. apply lookup_insert_ne. lia.
    + intros k Hk. rewrite Hhi by lia. apply lookup_insert_ne. lia.
    + intros [|j] seg Hseg.
      * injection Hseg as <-. exists e. by rewrite Nat.add_0_r.
      * simpl in Hseg. destruct (Hent j seg Hseg) as (e' & He' & Hinh').
        exists e'. replace (i + S j)%nat with (S i + j)%nat by lia.
        split; [done|]. destruct j as [|j'].
        -- by rewrite Nat.add_0_r, Hi.
        -- by replace (i + S j')%nat with (S i + j')%nat by lia.
Qed.

(** When the numeric fields are integers, the loop gives one entry for each
    segment between semicolons, in order, and each entry follows the one
    before it. *)
Lemma decode_srcmap_entries (raw_sourcemap : string) :
  forallb numeric_fields_ok (Py.split ";" raw_sourcemap) = true →
  ∃ m : gmap nat srcmap_entry,
    Contract.decode_srcmap raw_sourcemap = OK m
    ∧ (∀ i, is_Some (m !! i) ↔ (i < length (Py.split ";" raw_sourcemap))%nat)
    ∧ (∀ i segment, Py.split ";" raw_sourcemap !! i = Some segment →
         ∃ e, m !! i = Some e ∧ inherits (entry_before m i) segment e).
Proof.
  intros Hok. unfold Contract.decode_srcmap.
  destruct (decode_segments_inherit _ 0 srcmap_defaults ∅ Hok)
    as (m & Hm & _ & Hhi & Hent).
  exists m. split; [done|]. split.
  - intros i. split.
    + intros Hi. destruct (decide (i < length (Py.split ";" raw_sourcemap))%nat); [done|].
      rewrite Hhi, lookup_empty in Hi by lia. by destruct Hi.
    + intros Hi. apply lookup_lt_is_Some_2 in Hi as [seg Hseg].
      destruct (Hent i seg Hseg) as (e & He & _). eauto.
  - intros i segment Hseg. destruct (Hent i segment Hseg) as (e & He & Hinh).
    exists e. split; [done|]. by destruct i.
Qed.

(** The source map [1:2:0;;3:4:1] has three entries. *)
Lemma decode_srcmap_example :
  Contract.decode_srcmap "1:2:0;;3:4:1"
  = OK (<[2%nat := (3, 4, 1, ""%string, 0)]>
         (<[1%nat := (1, 2, 0, ""%string, 0)]>
            (<[0%nat := (1, 2, 0, ""%string, 0)]> ∅))).
Proof. reflexivity. Qed.

(** A field that is not an integer makes the decoder raise [ValueError]. *)
Example decode_srcmap_not_an_integer :
  Contract.decode_srcmap "1:x" = Raise (Py.invalid_literal 10 "x").
Proof. reflexivity. Qed.

(** [srcmap] runs the decoder when the bytecode is not empty and is made of
    hexadecimal bytes; without bytecode, or without source map, it is
    empty. *)
Lemma srcmap_decodes (self : Contract.t) (raw : string) :
  Contract.raw_sourcemap self = JStr raw →
  Contract.bytecode self ≠ ""%string →
  is_OK (mapM_result (Py.int_base 16) (Contract.pairs (Contract.bytecode self))) = true →
  Contract.srcmap self = Contract.decode_srcmap raw.
Proof.
  intros Hraw Hcode Hhex. unfold Contract.srcmap. rewrite Hraw.
  destruct (Contract.bytecode self) as [|c s] eqn:Hb; [done|].
  simpl String.length. cbn [Nat.ltb Nat.leb].
  by destruct (mapM_result _ _).
Qed.

Lemma srcmap_empty (self : Contract.t) :
  Contract.raw_sourcemap self = JNull ∨ Contract.bytecode self = ""%string →
  Contract.srcmap self = OK ∅.
Proof.
  unfold Contract.srcmap. intros [-> | ->]; [done|]. by destruct (Contract.raw_sourcemap self).
Qed.

Lemma bind_OK {A B} (r : result A) (f : A → result B) (b : B) :
  r ≫= f = OK b → ∃ a, r = OK a ∧ f a = OK b.
Proof. destruct r as [a|e]; [eauto|done]. Qed.

Lemma bind_Raise {A B} (r : result A) (f : A → result B) (e : exn) :
  r ≫= f = Raise e → r = Raise e ∨ ∃ a, r = OK a ∧ f a = Raise e.
Proof. destruct r as [a|e']; [eauto|]. intros [= <-]. by left. Qed.

Lemma int_field_ok (fields : list string) (k : nat) (prev e : Z) :
  match Contract.field_set fields k with Some v => Py.int v | None => OK prev end = OK e →
  match Contract.field_set fields k with Some v => is_OK (Py.int v) | None => true end = true.
Proof. destruct (Contract.field_set fields k); [by intros ->|done]. Qed.

Lemma int_field_raises (fields : list string) (k : nat) (prev : Z) (e : exn) :
  match Contract.field_set fields k with Some v => Py.int v | None => OK prev end = Raise e →
  ∃ msg, e = ValueError msg.
Proof.
  destruct (Contract.field_set fields k) as [v|]; [|done].
  intros H. apply int_base_raises in H as ->. unfold Py.invalid_literal. eauto.
Qed.

Lemma decode_segment_ok (prev e : srcmap_entry) (segment : string) :
  Contract.decode_segment prev segment = OK e → numeric_fields_ok segment = true.
Proof.
  destruct prev as [[[[s l] f] j] m]. unfold Contract.decode_segment, numeric_fields_ok.
  cbn [forallb]. intros H.
  apply bind_OK in H as (s' & H0%int_field_ok & H).
  apply bind_OK in H as (l' & H1%int_field_ok & H).
  apply bind_OK in H as (f' & H2%int_field_ok & H).
  apply bind_OK in H as (j' & _ & H).
  apply bind_OK in H as (m' & H4%int_field_ok & H).
  by rewrite H0, H1, H2, H4.
Qed.

Lemma decode_segment_raises (prev : srcmap_entry) (segment : string) (e : exn) :
  Contract.decode_segment prev segment = Raise e → ∃ msg, e = ValueError msg.
Proof.
  destruct prev as [[[[s l] f] j] m]. unfold Contract.decode_segment. intros H.
  apply bind_Raise in H as [H|(s' & _ & H)]; [by eapply int_field_raises|].
  apply bind_Raise in H as [H|(l' & _ & H)]; [by eapply int_field_raises|].
  apply bind_Raise in H as [H|(f' & _ & H)]; [by eapply int_field_raises|].
  apply bind_Raise in H as [H|(j' & _ & H)]; [by destruct (Contract.field_set _ 3)|].
  apply bind_Raise in H as [H|(m' & _ & H)]; [by eapply int_field_raises|].
  done.
Qed.

Lemma decode_segments_ok (segments : list string) :
  ∀ i prev m0 m,
    Contract.decode_segments i prev segments m0 = OK m →
    forallb numeric_fields_ok segments = true.
Proof.
  induction segments as [|seg segments IH]; intros i prev m0 m; simpl; [done|].
  destruct (Contract.decode_segment prev seg) as [e|] eqn:He; simpl; [|done].
  intros H. rewrite (decode_segment_ok _ _ _ He). simpl. by eapply IH.
Qed.

Lemma decode_segments_raises (segments : list string) :
  ∀ i prev m0 e,
    Contract.decode_segments i prev segments m0 = Raise e → ∃ msg, e = ValueError msg.
Proof.
  induction segments as [|seg segments IH]; intros i prev m0 e; simpl; [done|].
  destruct (Contract.decode_segment prev seg) as [e'|e'] eqn:He; simpl.
  - by apply IH.
  - intros [= <-]. by eapply decode_segment_raises.
Qed.

(** C3: for every model whose bytecode is not empty and is made of
    hexadecimal bytes and whose source map is a string: when every numeric
    field written in a segment is an integer for [int], [srcmap] gives one
    entry for each segment between semicolons, in order, and each of the five
    fields of an entry (start, length, file, jump tag, modifier depth) is,
    independently of the others, read from the segment or, when it is empty
    or absent there, taken from the entry before, the one before the first
    being (0, 0, 0, empty, 0); when some written numeric field is not an
    integer, [srcmap] raises [ValueError].  The source map [1:2:0;;3:4:1]
    gives the entries (1, 2, 0, empty, 0) twice and (3, 4, 1, empty, 0). *)
Theorem srcmap_inherits (self : Contract.t) (raw : string) :
  Contract.raw_sourcemap self = JStr raw →
  Contract.bytecode self ≠ ""%string →
  is_OK (mapM_result (Py.int_base 16) (Contract.pairs (Contract.bytecode self))) = true →
  (if forallb numeric_fields_ok (Py.split ";" raw)
   then ∃ m : gmap nat srcmap_entry,
          Contract.srcmap self = OK m
          ∧ (∀ i, is_Some (m !! i) ↔ (i < length (Py.split ";" raw))%nat)
          ∧ (∀ i segment, Py.split ";" raw !! i = Some segment →
               ∃ e, m !! i = Some e ∧ inherits (entry_before m i) segment e)
   else ∃ msg, Contract.srcmap self = Raise (ValueError msg))
  ∧ (raw = "1:2:0;;3:4:1"%string →
     Contract.srcmap self
     = OK (<[2%nat := (3, 4, 1, ""%string, 0)]>
            (<[1%nat := (1, 2, 0, ""%string, 0)]>
               (<[0%nat := (1, 2, 0, ""%string, 0)]> ∅)))).
Proof.
  intros Hraw Hcode Hhex. rewrite (srcmap_decodes self raw Hraw Hcode Hhex). split.
  - destruct (forallb numeric_fields_ok (Py.split ";" raw)) eqn:Hok.
    + by apply decode_srcmap_entries.
    + destruct (Contract.decode_srcmap raw) as [m|e] eqn:Hm.
      * apply decode_segments_ok in Hm. congruence.
      * apply decode_segments_raises in Hm as [msg ->]. by exists msg.
  - intros ->. apply decode_srcmap_example.
Qed.

Lemma srcmap_inherits_witness :
  ∃ m : gmap nat srcmap_entry,
    Contract.srcmap uint9_contract = OK m
    ∧ (∀ i, is_Some (m !! i) ↔ (i < 3)%nat)
    ∧ ∃ e, m !! 1%nat = Some e ∧ inherits (entry_before m 1) "" e.
Proof.
  destruct (srcmap_inherits uint9_contract "1:2:0;;3:4:1" eq_refl
              ltac:(discriminate) eq_refl) as [H _].
  destruct H as (m & Hm & Hdom & Hent).
  exists m. split; [exact Hm|]. split; [exact Hdom|].
  exact (Hent 1%nat ""%string eq_refl).
Defined.

(** A model that construction yields, whose source map has a field that is
    not an integer: [srcmap] raises. *)
Lemma srcmap_not_an_integer :
  ∃ self : Contract.t,
    Contract.init "C" bad_srcmap_artifact false = OK self
    ∧ Contract.raw_sourcemap self = JStr "1:x"
    ∧ Contract.srcmap self = Raise (Py.invalid_literal 10 "x").
Proof. eexists. split; [vm_compute; reflexivity|]. split; reflexivity. Qed.

Example srcmap_uint9_contract :
  Contract.srcmap uint9_contract
  = OK (<[2%nat := (3, 4, 1, ""%string, 0)]>
         (<[1%nat := (1, 2, 0, ""%string, 0)]>
            (<[0%nat := (1, 2, 0, ""%string, 0)]> ∅))).
Proof. reflexivity. Qed.

(** ** The canonical signature *)

(** A tuple of [uint256] and [address] without array suffix. *)
Lemma unparse_input_tuple :
  unparse_input (abi_tuple "p" "tuple" [abi_input "a" "uint256"; abi_input "b" "address"])
  = OK "(uint256,address)"%string.
Proof. reflexivity. Qed.

(** A dynamic array of that tuple, and a fixed-size one. *)
Lemma unparse_input_tuple_array :
  unparse_input (abi_tuple "p" "tuple[]" [abi_input "a" "uint256"; abi_input "b" "address"])
  = OK "(uint256,address)[]"%string
  ∧ unparse_input (abi_tuple "p" "tuple[3]" [abi_input "a" "uint256"; abi_input "b" "address"])
    = OK "(uint256,address)[3]"%string.
Proof. split; reflexivity. Qed.

(** The components of a tuple are canonicalized in order, joined by commas
    and put between parentheses. *)
Lemma unparse_input_components (depth : nat) (name : string)
  (components : list JSON) (parts : list string) :
  mapM_result (unparse_input_rec depth) components = OK parts →
  unparse_input_rec (S depth) (abi_tuple name "tuple" components)
  = OK ("(" +:+ Py.join "," parts +:+ ")").
Proof. intros H. cbn. rewrite H. reflexivity. Qed.

(** Nested tuples: the components are canonicalized recursively. *)
Example unparse_input_nested :
  unparse_input
    (abi_tuple "p" "tuple[2]"
       [abi_input "a" "bool";
        abi_tuple "q" "tuple" [abi_input "b" "uint8[]"; abi_input "c" "bytes"]])
  = OK "(bool,(uint8[],bytes))[2]"%string.
Proof. reflexivity. Qed.

(** C4 (defect of the code): the array suffix is read between the first
    opening bracket and the next one, so of several dimensions only the
    first is written back.  An array of arrays of the tuple of [uint256] and
    [address], of type [tuple[][]], is canonicalized to
    [(uint256,address)[]] where the compiler's signature has
    [(uint256,address)[][]]; [tuple[2][3]] gives [(uint256,address)[2]]. *)
Theorem unparse_input_drops_dimensions :
  unparse_input (abi_tuple "p" "tuple[][]" [abi_input "a" "uint256"; abi_input "b" "address"])
  = OK "(uint256,address)[]"%string
  ∧ unparse_input (abi_tuple "p" "tuple[2][3]" [abi_input "a" "uint256"; abi_input "b" "address"])
    = OK "(uint256,address)[2]"%string.
Proof. split; reflexivity. Qed.

(** With the selector table of the compiler, which has the full signature,
    the construction of the model then fails on the lookup of the selector. *)
Example init_tuple_array_of_arrays :
  Contract.init "C"
    (artifact
       [abi_function "f"
          [abi_tuple "p" "tuple[][]" [abi_input "a" "uint256"; abi_input "b" "address"]]
          "nonpayable"]
       [("f((uint256,address)[][])"%string, "0dd1f0b1"%string)]) false
  = Raise (KeyError "f((uint256,address)[])").
Proof. reflexivity. Qed.

(** ** Construction on artifacts described by their functions *)

Lemma split_head_prefix (c : ascii) (s p : string) :
  nth 0 (Py.split c s) ""%string = p → String.prefix p s = true.
Proof.
  revert p. induction s as [|d s IH]; intros p; simpl.
  - by intros <-.
  - destruct (Ascii.eqb d c); simpl; [by intros <-|].
    destruct (Py.split c s) as [|w ws] eqn:Hs; simpl; intros <-; simpl.
    + destruct (ascii_dec d d); [|done]. by destruct s.
    + destruct (ascii_dec d d); [|done]. by apply IH.
Qed.

Lemma unparse_elementary (depth : nat) (n t : string) :
  elementary t = true → unparse_input_rec (S depth) (abi_input n t) = OK t.
Proof.
  unfold elementary. intros [Htuple Hsize]%andb_true_iff.
  apply negb_true_iff in Htuple.
  cbn [unparse_input_rec abi_input Json.getitem Json.assoc String.eqb Ascii.eqb Bool.eqb
       mbind result_bind Json.str_argument].
  destruct (Re.match_array t) eqn:Harr.
  - simpl in Hsize.
    destruct (String.eqb (Py.drop_last (nth 1 (Py.split "[" t) "")) "") eqn:Hempty.
    + cbn [negb mbind result_bind].
      destruct (String.eqb_spec (nth 0 (Py.split "[" t) "") "tuple") as [E|]; [|done].
      apply split_head_prefix in E. unfold Py.startswith in Htuple. congruence.
    + cbn [negb mbind result_bind]. simpl in Hsize.
      destruct (Py.int (Py.drop_last (nth 1 (Py.split "[" t) ""))) as [size|]; [|done].
      cbn [mbind result_bind].
      destruct (String.eqb_spec (nth 0 (Py.split "[" t) "") "tuple") as [E|]; [|done].
      apply split_head_prefix in E. unfold Py.startswith in Htuple. congruence.
  - cbn [mbind result_bind].
    destruct (String.eqb_spec t "tuple") as [->|]; [done|done].
Qed.

Lemma unparse_components (depth : nat) (components : list (string * string)) :
  forallb (fun c => elementary (snd c)) components = true →
  mapM_result (unparse_input_rec (S depth))
    (map (fun c => abi_input (fst c) (snd c)) components)
  = OK (map snd components).
Proof.
  induction components as [|[n t] components IH]; [done|].
  cbn [forallb map mapM_result fst snd]. intros [Ht Hrest]%andb_true_iff.
  rewrite (unparse_elementary depth n t Ht), (IH Hrest). reflexivity.
Qed.

Lemma unparse_input_tuple_array_components (depth : nat) (name : string)
  (components : list JSON) (parts : list string) :
  mapM_result (unparse_input_rec depth) components = OK parts →
  unparse_input_rec (S depth) (abi_tuple name "tuple[]" components)
  = OK (("(" +:+ Py.join "," parts +:+ ")") +:+ "[]").
Proof. intros H. cbn. rewrite H. reflexivity. Qed.

Lemma string_app_assoc (a b c : string) : (a +:+ b) +:+ c = a +:+ (b +:+ c).
Proof.
  induction a as [|x a IH]; [done|].
  change (String x ((a +:+ b) +:+ c) = String x (a +:+ b +:+ c)). by rewrite IH.
Qed.

Lemma string_app_nil_r (a : string) : a +:+ "" = a.
Proof.
  induction a as [|x a IH]; [done|].
  change (String x (a +:+ "") = String x a). by rewrite IH.
Qed.

(** The canonicalizer on an argument of the family. *)
Lemma unparse_input_arg (a : abi_arg) :
  arg_wf a = true → unparse_input (arg_json a) = OK (arg_signature a).
Proof.
  destruct a as [n t|n dynamic_array components]; intros Hwf.
  - unfold unparse_input. by apply unparse_elementary.
  - unfold unparse_input. cbn [arg_json arg_type arg_signature].
    assert (Hd : ∃ d, json_depth (abi_tuple n (if dynamic_array then "tuple[]" else "tuple")
                         (map (fun c => abi_input (fst c) (snd c)) components))
                      = S (S d)).
    { exists (list_max (map json_depth (map (fun c => abi_input (fst c) (snd c)) components))).
      unfold abi_tuple. cbn [json_depth map snd list_max fold_right]. lia. }
    destruct Hd as [d ->].
    pose proof (unparse_components (S d) components Hwf) as Hparts.
    destruct dynamic_array.
    + rewrite (unparse_input_tuple_array_components _ _ _ _ Hparts). 
      by rewrite !string_app_assoc.
    + rewrite (unparse_input_components _ _ _ _ Hparts).
      reflexivity.
Qed.

Lemma mapM_unparse_args (args : list abi_arg) :
  forallb arg_wf args = true →
  mapM_result unparse_input (map arg_json args) = OK (map arg_signature args).
Proof.
  induction args as [|a args IH]; [done|].
  cbn [forallb map mapM_result]. intros [Ha Hrest]%andb_true_iff.
  rewrite (unparse_input_arg a Ha), (IH Hrest). reflexivity.
Qed.

(** The signature of a function of the family. *)
Lemma method_sig_fn (f : abi_fn) :
  forallb arg_wf (fn_args f) = true →
  method_sig_from_abi (fn_json f) = OK (fn_signature f).
Proof.
  intros Hwf. unfold method_sig_from_abi, fn_json, abi_function.
  cbn [Json.getitem Json.assoc String.eqb Ascii.eqb Bool.eqb mbind result_bind Json.iter].
  rewrite (mapM_unparse_args _ Hwf). reflexivity.
Qed.










Lemma elem_of_insert_by {A} (key : A → string) (x y : A) (l : list A) :
  y ∈ insert_by key x l ↔ y = x ∨ y ∈ l.
Proof.
  induction l as [|z l IH]; simpl.
  - rewrite list_elem_of_singleton, elem_of_nil. tauto.
  - destruct (String.leb (key x) (key z)).
    + by rewrite elem_of_cons.
    + rewrite !elem_of_cons, IH. tauto.
Qed.

Lemma elem_of_sorted_by {A} (key : A → string) (y : A) (l : list A) :
  y ∈ sorted_by key l ↔ y ∈ l.
Proof.
  unfold sorted_by. induction l as [|x l IH]; simpl; [done|].
  rewrite elem_of_insert_by, elem_of_cons, IH. tauto.
Qed.

(** ** Malformed widths *)

Lemma evm_base_sort_int_raises (type_label : string) (e : exn) :
  _evm_base_sort_int type_label = Raise e → ∃ msg, e = ValueError msg.
Proof.
  unfold _evm_base_sort_int, Py.int, unsupported_base_sort. intros H.
  unfold mbind, result_bind in H.
  repeat case_match; simplify_eq;
    try match goal with
        | H : Py.int_base _ _ = Raise _ |- _ => apply int_base_raises in H; subst
        end;
    unfold Py.invalid_literal; eauto.
Qed.

Lemma evm_base_sort_raises (type_label : string) (e : exn) :
  _evm_base_sort type_label = Raise e → ∃ msg, e = ValueError msg.
Proof.
  unfold _evm_base_sort. destruct (_evm_base_sort_int type_label) as [b|e'] eqn:Hint.
  - simpl. repeat case_match; congruence.
  - simpl. intros [= <-]. by eapply evm_base_sort_int_raises.
Qed.


Lemma production_items_raises (types : list string) (i : nat) (e : exn) :
  Method.production_items i types = Raise e → ∃ msg, e = ValueError msg.
Proof.
  revert i. induction types as [|t types IH]; intros i; simpl; [done|].
  destruct (_evm_base_sort t) as [srt|e'] eqn:Ht; simpl.
  - destruct (Method.production_items (S i) types) as [rest|e'] eqn:Hrest; simpl; [done|].
    intros [= <-]. by eapply IH.
  - intros [= <-]. by eapply evm_base_sort_raises.
Qed.







(** The error names the type. *)
Example method_sentences_uint9_message :
  Contract.method_sentences uint9_contract
  = Raise (ValueError "Unsupported evm base sort type: uint9").
Proof. reflexivity. Qed.

(** ** Methods without calldata rule *)

Lemma mapM_result_length {A B} (f : A → result B) (xs : list A) (ys : list B) :
  mapM_result f xs = OK ys → length ys = length xs.
Proof.
  revert ys. induction xs as [|x xs IH]; intros ys; simpl.
  - by intros [= <-].
  - destruct (f x); simpl; [|done]. destruct (mapM_result f xs); simpl; [|done].
    intros [= <-]. simpl. f_equal. by apply IH.
Qed.

Lemma mapM_enumerate_length {A B} (f : nat → A → result B) (i : nat) (xs : list A)
  (ys : list B) :
  mapM_enumerate f i xs = OK ys → length ys = length xs.
Proof.
  revert i ys. induction xs as [|x xs IH]; intros i ys; simpl.
  - by intros [= <-].
  - destruct (f i x); simpl; [|done].
    destruct (mapM_enumerate f (S i) xs) eqn:Hrest; simpl; [|done].
    intros [= <-]. simpl. f_equal. by eapply IH.
Qed.

Lemma method_init_lengths (msig : string) (id : Z) (abi : JSON) (cn : string)
  (srt : KSort) (m : Method.t) :
  Method.init msig id abi cn srt = OK m →
  length (Method.arg_names m) = length (Method.arg_types m).
Proof.
  unfold Method.init. intros H. unfold mbind, result_bind in H.
  repeat case_match; simplify_eq; simpl;
  repeat match goal with
  | H : mapM_result _ _ = OK _ |- _ => apply mapM_result_length in H
  | H : mapM_enumerate _ _ _ = OK _ |- _ => apply mapM_enumerate_length in H
  end;
  congruence.
Qed.

Lemma init_methods_lengths (cn : string) (evm : JSON) (abi : list JSON)
  (ms : list Method.t) :
  Contract.init_methods cn evm abi = OK ms →
  Forall (fun m => length (Method.arg_names m) = length (Method.arg_types m)) ms.
Proof.
  revert ms. induction abi as [|method abi IH]; intros ms; simpl.
  - intros [= <-]. constructor.
  - intros H. unfold mbind, result_bind in H.
    repeat case_match; simplify_eq; eauto.
    constructor; eauto using method_init_lengths.
Qed.

Lemma init_method_lengths (cn : string) (j : JSON) (foundry : bool) (self : Contract.t)
  (m : Method.t) :
  Contract.init cn j foundry = OK self → m ∈ Contract.methods self →
  length (Method.arg_names m) = length (Method.arg_types m).
Proof.
  unfold Contract.init. intros H Hm. unfold mbind, result_bind in H.
  repeat case_match; simplify_eq; simpl in Hm;
  apply elem_of_sorted_by in Hm;
  match goal with H : Contract.init_methods _ _ _ = OK _ |- _ =>
    apply init_methods_lengths in H; rewrite Forall_forall in H end; eauto.
Qed.

Lemma base_sort_ok_range_ok (t : string) (term : KInner) :
  is_OK (_evm_base_sort t) = true → is_OK (_range_predicate term t) = true.
Proof.
  unfold _evm_base_sort, _evm_base_sort_int, _range_predicate, _range_predicate_uint, Py.int.
  intros H. unfold mbind, result_bind in *.
  destruct (Py.startswith t "uint" && negb (Py.endswith t "]")) eqn:Hc.
  - destruct (Py.int_base 10 (Py.drop 4 t)) as [w|e] eqn:Hi.
    + destruct (negb ((0 <? w) && (w <=? 256) && (w mod 8 =? 0))) eqn:Hv; [|done].
      exfalso. repeat case_match; simplify_eq; done.
    + exfalso. repeat case_match; simplify_eq; done.
  - repeat case_match; simplify_eq; done.
Qed.










(** The sentences of that model: the rule of [g] is there, [f] has none. *)
Example method_sentences_tuple_contract :
  ∃ production_f production_g rule_g,
    Contract.method_rule tuple_contract uint8_method = OK (Some rule_g)
    ∧ Contract.method_sentences tuple_contract
      = OK [Contract.method_application_production tuple_contract;
            production_f; production_g; rule_g;
            Method.selector_alias_rule tuple_method;
            Method.selector_alias_rule uint8_method].
Proof. do 3 eexists. split; reflexivity. Qed.

(** ** The digest *)


#[local] Instance key_le_trans {A} : Transitive (@key_le A).
Proof. intros a b c. unfold key_le. apply transitivity. Qed.












(** *** The digest is not injective *)

Lemma hex_strings_app (a b : nat) (s t : string) :
  s ∈ hex_strings a → t ∈ hex_strings b → s +:+ t ∈ hex_strings (a + b).
Proof.
  revert s. induction a as [|a IH]; intros s Hs Ht.
  - apply list_elem_of_singleton in Hs as ->. done.
  - cbn [hex_strings] in Hs. apply list_elem_of_bind in Hs as (c & Hs & Hc).
    apply list_elem_of_bind in Hs as (s' & Hs & Hs').
    apply list_elem_of_singleton in Hs as ->.
    cbn [Nat.add hex_strings]. apply list_elem_of_bind. exists c. split; [|done].
    apply list_elem_of_bind. exists (s' +:+ t). split; [|by apply IH].
    by apply list_elem_of_singleton.
Qed.

Lemma hex_in_hex_strings (n : nat) (x : Z) : Sha256.hex n x ∈ hex_strings n.
Proof.
  induction n as [|n IH]; [by apply list_elem_of_singleton|].
  cbn [Sha256.hex hex_strings]. apply list_elem_of_bind.
  eexists. split.
  - apply list_elem_of_bind. eexists. split; [by apply list_elem_of_singleton|exact IH].
  - unfold hex_chars. apply list_elem_of_fmap_2, elem_of_seq.
    pose proof (Z.mod_pos_bound (Z.shiftr x (4 * Z.of_nat n)) 16). lia.
Qed.

Lemma hexdigest_words (ws : list Z) :
  foldr (fun w acc => Sha256.hex 8 w +:+ acc) EmptyString ws ∈ hex_strings (8 * length ws).
Proof.
  induction ws as [|w ws IH].
  - by apply list_elem_of_singleton.
  - cbn [foldr length]. replace (8 * S (length ws))%nat with (8 + 8 * length ws)%nat by lia.
    apply hex_strings_app; [apply hex_in_hex_strings|exact IH].
Qed.

Lemma round_length (st : list Z) (kw : Z * Z) :
  length st = 8%nat → length (Sha256.round st kw) = 8%nat.
Proof.
  intros H. do 9 (destruct st as [|? st]; try discriminate H). reflexivity.
Qed.

Lemma compress_length (h block : list Z) :
  length h = 8%nat → length (Sha256.compress h block) = 8%nat.
Proof.
  intros H. unfold Sha256.compress. rewrite length_map, length_combine.
  generalize (combine Sha256.K (Sha256.schedule 48 (Sha256.words 16 block))). intros l.
  assert (length (fold_left Sha256.round l h) = 8%nat) as ->; [|lia].
  revert h H. induction l as [|kw l IH]; intros h H; [done|].
  simpl. apply IH. by apply round_length.
Qed.

Lemma blocks_length (n : nat) (h bytes : list Z) :
  length h = 8%nat → length (Sha256.blocks n h bytes) = 8%nat.
Proof.
  revert h bytes. induction n as [|n IH]; intros h bytes H; [done|].
  cbn [Sha256.blocks]. apply IH. by apply compress_length.
Qed.

Lemma hash_str_hex (x : string) : hash_str x ∈ hex_strings 64.
Proof.
  unfold hash_str, Sha256.hexdigest.
  assert (Hlen : length (Sha256.digest (Sha256.utf8 x)) = 8%nat).
  { unfold Sha256.digest. apply blocks_length. vm_compute. reflexivity. }
  pose proof (hexdigest_words (Sha256.digest (Sha256.utf8 x))) as H.
  rewrite Hlen in H. exact H.
Qed.

Lemma not_NoDup_repeats {A} `{EqDecision A} (l : list A) :
  ¬ NoDup l → ∃ i j x, (i < j)%nat ∧ l !! i = Some x ∧ l !! j = Some x.
Proof.
  induction l as [|x l IH]; intros Hnd.
  - destruct Hnd. constructor.
  - destruct (decide (x ∈ l)) as [Hin|Hnin].
    + apply list_elem_of_lookup in Hin as [j Hj].
      exists O, (S j), x. split; [lia|done].
    + destruct IH as (i & j & y & Hij & Hi & Hj).
      { intros Hl. apply Hnd. by constructor. }
      exists (S i), (S j), y. split; [lia|done].
Qed.

(** A function from the natural numbers into a finite list takes some value
    twice. *)
Lemma pigeonhole {A} `{EqDecision A} (L : list A) (f : nat → A) :
  (∀ i, f i ∈ L) → ∃ i j, (i < j)%nat ∧ f i = f j.
Proof.
  intros Hf. set (xs := map f (seq 0 (S (length L)))).
  destruct (decide (NoDup xs)) as [Hnd|Hnd].
  - exfalso. assert (Hle : (length xs ≤ length L)%nat).
    { apply NoDup_incl_length; [by apply NoDup_ListNoDup|].
      intros y Hy. apply list_elem_of_In. apply list_elem_of_In in Hy.
      apply list_elem_of_fmap in Hy as (i & -> & _). apply Hf. }
    subst xs. rewrite length_map, length_seq in Hle. lia.
  - destruct (not_NoDup_repeats xs Hnd) as (i & j & x & Hij & Hi & Hj).
    subst xs. rewrite list_lookup_fmap in Hi, Hj.
    destruct (seq 0 (S (length L)) !! i) as [i'|] eqn:Hi'; [|done].
    destruct (seq 0 (S (length L)) !! j) as [j'|] eqn:Hj'; [|done].
    apply lookup_seq in Hi' as [-> _]. apply lookup_seq in Hj' as [-> _].
    simpl in Hi, Hj. exists i, j. split; [done|congruence].
Qed.

(** The digest has 64 hexadecimal digits, the artifacts are infinitely many:
    two artifacts that differ in their [id] have the same digest. *)
Lemma digest_not_injective :
  ∃ id1 id2 : Z,
    id1 ≠ id2
    ∧ Contract.digest (bare_contract "C" (JDict [("id"%string, JInt id1)]))
      = Contract.digest (bare_contract "C" (JDict [("id"%string, JInt id2)])).
Proof.
  destruct (pigeonhole (hex_strings 64)
              (fun i => Contract.digest
                          (bare_contract "C" (JDict [("id"%string, JInt (Z.of_nat i))]))))
    as (i & j & Hij & H).
  { intros i. apply hash_str_hex. }
  exists (Z.of_nat i), (Z.of_nat j). split; [lia|exact H].
Qed.

(** The digest of a model that construction yields is that of the name
    and the artifact given to the constructor. *)
Lemma init_digest (cn : string) (j : JSON) (foundry : bool) (self : Contract.t) :
  Contract.init cn j foundry = OK self →
  Contract.digest self = hash_str (cn +:+ " - " +:+ Json.dumps j).
Proof.
  unfold Contract.init. intros H. unfold mbind, result_bind in H.
  repeat case_match; simplify_eq; reflexivity.
Qed.




(** The hash is SHA-256: the digest of the standard's test message. *)
Example hash_str_abc :
  hash_str "abc" = "ba7816bf8f01cfea414140de5dae2223b00361a396177a9cb410ff61f20015ad"%string.
Proof. vm_compute. reflexivity. Qed.

(** The digest of the model of [uint9_artifact], as Python computes it. *)
Example digest_uint9_contract :
  Contract.digest uint9_contract
  = "bd0b6d05973c1d9a22e5563ab9ea10d057373c04e2c96900331ce9c535b91ec3"%string.
Proof. vm_compute. reflexivity. Qed.

(** * Further properties of the code *)

(** ** More on the instruction indexer *)

(** What the loop keeps besides density: a recorded program counter is a
    position of the buffer, and there are no more instructions than program
    counters passed or bytes. *)
Lemma scan_in_buffer (bs : list Z) (st : Contract.scan_state) :
  (∀ i p, Contract.instr_to_pc st !! i = Some p → (p < length bs)%nat) →
  (Contract.instr st ≤ Contract.pc st)%nat → (Contract.instr st ≤ length bs)%nat →
  (∀ i p, Contract.instr_to_pc (Contract.scan bs st) !! i = Some p → (p < length bs)%nat)
  ∧ (Contract.instr (Contract.scan bs st) ≤ length bs)%nat.
Proof.
  funelim (Contract.scan bs st); intros Hin Hpc Hlen; [|done].
  pose proof (lookup_lt_Some _ _ _ Hb) as Hlt.
  apply H; simpl.
  - intros i p. destruct (decide (i = Contract.instr st)) as [->|Hne].
    + rewrite lookup_insert_eq. by intros [= <-].
    + rewrite lookup_insert_ne by done. apply Hin.
  - destruct (Contract.is_push b); lia.
  - lia.
Qed.

Lemma scan_keeps_first (bs : list Z) (st : Contract.scan_state) :
  Contract.instr_to_pc st !! 0%nat = Some 0%nat → (0 < Contract.instr st)%nat →
  Contract.instr_to_pc (Contract.scan bs st) !! 0%nat = Some 0%nat.
Proof.
  funelim (Contract.scan bs st); intros Hzero Hpos; [|done].
  apply H; simpl; [|lia]. rewrite lookup_insert_ne by lia. done.
Qed.

(** X1: the instruction table of any buffer: an instruction index below the
    number of instructions has a program counter, which is a position of the
    buffer; there are at most as many instructions as bytes; the first
    instruction of a buffer that is not empty is at 0. *)
Theorem scan_bytes_in_buffer (bs : list Z) :
  let r := Contract.scan_bytes bs in
  (∀ i p, Contract.instr_to_pc r !! i = Some p → (p < length bs)%nat)
  ∧ (Contract.instr r ≤ length bs)%nat
  ∧ (bs ≠ [] → Contract.instr_to_pc r !! 0%nat = Some 0%nat)
  ∧ (bs = [] → Contract.instr r = 0%nat ∧ Contract.instr_to_pc r = ∅).
Proof.
  simpl. unfold Contract.scan_bytes.
  destruct (scan_in_buffer bs (Contract.mkScan 0 0 ∅)) as [H1 H2]; simpl; try lia.
  { intros i p. by rewrite lookup_empty. }
  split; [done|]. split; [done|]. split.
  - intros Hne. destruct bs as [|b bs]; [done|].
    rewrite (scan_step _ _ b) by done. simpl.
    apply scan_keeps_first; simpl; [|lia]. apply lookup_insert_eq.
  - intros ->. done.
Qed.

(** A buffer without push bytes. *)
Lemma scan_identity_from (bs : list Z) (st : Contract.scan_state) :
  Forall (fun b => Contract.is_push b = false) bs →
  Contract.pc st = Contract.instr st → (Contract.pc st ≤ length bs)%nat →
  (∀ i, (i < Contract.instr st)%nat → Contract.instr_to_pc st !! i = Some i) →
  let r := Contract.scan bs st in
  Contract.instr r = length bs ∧ Contract.pc r = length bs
  ∧ ∀ i, (i < length bs)%nat → Contract.instr_to_pc r !! i = Some i.
Proof.
  funelim (Contract.scan bs st); intros Hall Heq Hle Hid; simpl.
  - pose proof (lookup_lt_Some _ _ _ Hb) as Hlt.
    assert (Hpush : Contract.is_push b = false).
    { rewrite Forall_forall in Hall. apply Hall. by eapply list_elem_of_lookup_2. }
    rewrite Hpush in H |- *. apply H; simpl; try done; try lia.
    intros i Hi. destruct (decide (i = Contract.instr st)) as [->|Hne].
    + rewrite lookup_insert_eq. by rewrite Heq.
    + rewrite lookup_insert_ne by done. apply Hid. lia.
  - pose proof (lookup_ge_None_1 _ _ e) as Hge. assert (Contract.pc st = length bs) as Hpc by lia.
    split; [lia|]. split; [done|]. intros i Hi. apply Hid. lia.
Qed.

(** X2: on a buffer in which no byte is in the push range of the code every
    byte is an instruction: instruction [i] is at program counter [i]. *)
Theorem scan_bytes_without_push (bs : list Z) :
  Forall (fun b => Contract.is_push b = false) bs →
  Contract.instr (Contract.scan_bytes bs) = length bs
  ∧ ∀ i, (i < length bs)%nat →
         Contract.instr_to_pc (Contract.scan_bytes bs) !! i = Some i.
Proof.
  intros Hall. unfold Contract.scan_bytes.
  destruct (scan_identity_from bs (Contract.mkScan 0 0 ∅) Hall) as (H1 & _ & H2);
    simpl; try done; try lia.
Qed.

Lemma scan_bytes_without_push_witness :
  Forall (fun b => Contract.is_push b = false) [0x00; 0x01; 0x7F; 0x5F]
  ∧ Contract.instr (Contract.scan_bytes [0x00; 0x01; 0x7F; 0x5F]) = 4%nat
  ∧ Contract.instr_to_pc (Contract.scan_bytes [0x00; 0x01; 0x7F; 0x5F]) !! 3%nat = Some 3%nat.
Proof.
  assert (H : Forall (fun b => Contract.is_push b = false) [0x00; 0x01; 0x7F; 0x5F])
    by (repeat constructor).
  destruct (scan_bytes_without_push _ H) as [H1 H2].
  split; [exact H|]. split; [exact H1|]. apply H2. simpl. lia.
Defined.

(** X3: the instruction table of any buffer has the instruction
    indices from 0 up to the number of instructions as its keys, and a later
    instruction has a strictly larger program counter. *)
Theorem scan_bytes_dense_strictly_increasing (bs : list Z) :
  let r := Contract.scan_bytes bs in
  (∀ i : nat, is_Some (Contract.instr_to_pc r !! i) ↔ (i < Contract.instr r)%nat)
  ∧ (∀ i j p q : nat, (i < j)%nat →
       Contract.instr_to_pc r !! i = Some p → Contract.instr_to_pc r !! j = Some q →
       (p < q)%nat).
Proof.
  destruct (scan_bytes_dense_increasing bs) as (H1 & _ & H3). split; [exact H1|exact H3].
Qed.


(** X4: the source-map table does not depend on the
    bytes of the bytecode: two models with the same source map whose
    bytecodes are not empty and are made of hexadecimal bytes have the same
    table (the instruction table of the scan is not used). *)
Theorem srcmap_ignores_bytecode (c1 c2 : Contract.t) :
  Contract.raw_sourcemap c1 = Contract.raw_sourcemap c2 →
  Contract.bytecode c1 ≠ ""%string → Contract.bytecode c2 ≠ ""%string →
  is_OK (mapM_result (Py.int_base 16) (Contract.pairs (Contract.bytecode c1))) = true →
  is_OK (mapM_result (Py.int_base 16) (Contract.pairs (Contract.bytecode c2))) = true →
  Contract.srcmap c1 = Contract.srcmap c2.
Proof.
  intros Hraw Hb1 Hb2 Hh1 Hh2. unfold Contract.srcmap. rewrite <- Hraw.
  destruct (Contract.bytecode c1) as [|a1 s1]; [done|].
  destruct (Contract.bytecode c2) as [|a2 s2]; [done|].
  simpl String.length. cbn [Nat.ltb Nat.leb].
  destruct (mapM_result _ (Contract.pairs (String a1 s1))); [|done].
  destruct (mapM_result _ (Contract.pairs (String a2 s2))); [|done].
  done.
Qed.

Lemma srcmap_ignores_bytecode_witness :
  let c1 := uint9_contract in
  let c2' := {| Contract.name := "D"; Contract.contract_json := JNull;
                Contract.contract_id := JNull; Contract.contract_path := JNull;
                Contract.bytecode := "7f00"; Contract.raw_sourcemap := JStr "1:2:0;;3:4:1";
                Contract.methods := []; Contract.fields := ∅ |} in
  Contract.srcmap c1 = Contract.srcmap c2'.
Proof.
  exact (srcmap_ignores_bytecode uint9_contract
           {| Contract.name := "D"; Contract.contract_json := JNull;
              Contract.contract_id := JNull; Contract.contract_path := JNull;
              Contract.bytecode := "7f00"; Contract.raw_sourcemap := JStr "1:2:0;;3:4:1";
              Contract.methods := []; Contract.fields := ∅ |}
           eq_refl ltac:(discriminate) ltac:(discriminate) eq_refl eq_refl).
Defined.

Lemma mapM_int_base_raises (base : Z) (l : list string) (e : exn) :
  mapM_result (Py.int_base base) l = Raise e → ∃ msg, e = ValueError msg.
Proof.
  induction l as [|s l IH]; simpl; [done|].
  destruct (Py.int_base base s) as [n|e'] eqn:Hs; simpl.
  - destruct (mapM_result (Py.int_base base) l); simpl; [done|].
    intros [= <-]. by apply IH.
  - intros [= <-]. apply int_base_raises in Hs as ->. unfold Py.invalid_literal. eauto.
Qed.

(** X5: [srcmap] is the empty table when there is no source
    map or no bytecode, whatever the other is; when both are there and the
    source map is a string, it raises nothing but [ValueError] (a pair of
    characters of the bytecode that is not a hexadecimal number, or a field
    of the source map that is not an integer). *)
Theorem srcmap_guards (self : Contract.t) :
  (Contract.raw_sourcemap self = JNull ∨ Contract.bytecode self = ""%string →
   Contract.srcmap self = OK ∅)
  ∧ ∀ raw e, Contract.raw_sourcemap self = JStr raw →
      Contract.srcmap self = Raise e → ∃ msg, e = ValueError msg.
Proof.
  split; [apply srcmap_empty|].
  intros raw e Hraw. unfold Contract.srcmap. rewrite Hraw.
  destruct (0 <? String.length (Contract.bytecode self))%nat; [|done].
  destruct (mapM_result _ _) as [bs|e'] eqn:Hbs; simpl.
  - apply decode_segments_raises.
  - intros [= <-]. by eapply mapM_int_base_raises.
Qed.

(** ** More on the classifier and the range predicates *)

Lemma range_predicate_uint_raises (term : KInner) (type_label : string) (e : exn) :
  _range_predicate_uint term type_label = Raise e →
  Py.startswith type_label "uint" = true ∧ Py.endswith type_label "]" = false
  ∧ (e = unsupported_range_predicate type_label
     ∨ e = Py.invalid_literal 10 (Py.drop 4 type_label)).
Proof.
  unfold _range_predicate_uint, Py.int. intros H. unfold mbind, result_bind in H.
  destruct (Py.startswith type_label "uint" && negb (Py.endswith type_label "]")) eqn:Hc;
    [|done].
  apply andb_true_iff in Hc as [Hs He]. apply negb_true_iff in He.
  split; [done|]. split; [done|].
  destruct (Py.int_base 10 (Py.drop 4 type_label)) as [w|e'] eqn:Hw.
  - case_match; simplify_eq; auto.
  - simplify_eq. apply int_base_raises in Hw. auto.
Qed.

(** X6: the predicate generator raises only on a type string that
    starts with [uint] and does not end in a bracket, and then a
    [ValueError]: the width is not an integer, or not a multiple of 8 in
    1..256.  On every other type string it answers, with a predicate or
    with none. *)
Theorem range_predicate_raises_only_uint (term : KInner) (type_label : string) (e : exn) :
  _range_predicate term type_label = Raise e →
  Py.startswith type_label "uint" = true ∧ Py.endswith type_label "]" = false
  ∧ (e = ValueError ("Unsupported range predicate type: " +:+ type_label)
     ∨ e = Py.invalid_literal 10 (Py.drop 4 type_label)).
Proof.
  unfold _range_predicate.
  destruct (_range_predicate_uint term type_label) as [[b o]|e'] eqn:Hu; simpl.
  - intros H. repeat case_match; simplify_eq.
  - intros [= <-]. by apply range_predicate_uint_raises in Hu.
Qed.

Lemma range_predicate_raises_only_uint_witness :
  _range_predicate (KVariable "x") "uint9" = Raise (unsupported_range_predicate "uint9")
  ∧ Py.startswith "uint9" "uint" = true ∧ Py.endswith "uint9" "]" = false.
Proof.
  assert (H : _range_predicate (KVariable "x") "uint9"
              = Raise (unsupported_range_predicate "uint9")) by reflexivity.
  destruct (range_predicate_raises_only_uint _ _ _ H) as (H1 & H2 & _).
  split; [exact H|]. split; [exact H1|exact H2].
Defined.

Lemma evm_base_sort_int_raises_which (type_label : string) (e : exn) :
  _evm_base_sort_int type_label = Raise e →
  e = unsupported_base_sort type_label ∨ ∃ s, e = Py.invalid_literal 10 s.
Proof.
  unfold _evm_base_sort_int, Py.int. intros H.
  unfold mbind, result_bind in H.
  repeat case_match; simplify_eq; auto;
    match goal with
    | H : Py.int_base _ _ = Raise _ |- _ => apply int_base_raises in H; subst; eauto
    end.
Qed.

(** X7: the classifier answers one of the four sorts [Int],
    [Bytes], [String] and [K], or raises a [ValueError]: the unsupported-type
    error for the type string, or the error of [int] on the text after
    [bytes], [int] or [uint]. *)
Theorem evm_base_sort_outcomes (type_label : string) :
  match _evm_base_sort type_label with
  | OK srt => sort_name srt ∈ ["Int"; "Bytes"; "String"; "K"]%string
  | Raise e =>
      e = ValueError ("Unsupported evm base sort type: " +:+ type_label)
      ∨ ∃ s, e = Py.invalid_literal 10 s
  end.
Proof.
  unfold _evm_base_sort.
  destruct (_evm_base_sort_int type_label) as [b|e] eqn:Hint; simpl.
  - repeat case_match; simplify_eq; simpl; set_solver.
  - by apply evm_base_sort_int_raises_which in Hint.
Qed.

Lemma prefix_head (a c : ascii) (p t : string) :
  String.prefix (String a p) (String c t) = true → c = a.
Proof.
  cbn [String.prefix]. by destruct (Ascii.ascii_dec a c) as [<-|Hne].
Qed.

Lemma startswith_uint_not_others (t : string) :
  Py.startswith t "uint" = true →
  Py.startswith t "bytes" = false ∧ Py.startswith t "int" = false
  ∧ String.eqb t "address" = false ∧ String.eqb t "bool" = false
  ∧ String.eqb t "bytes" = false ∧ String.eqb t "string" = false.
Proof.
  unfold Py.startswith. destruct t as [|c t]; [done|].
  intros ->%prefix_head. repeat split; reflexivity.
Qed.

(** X8: on a type string that starts with [uint] and does not
    end in a bracket the classifier and the predicate generator agree: when
    [int] reads from the text after [uint] a width that is a multiple of 8 in
    1..256, the sort is [Int] and the predicate is the unsigned range of that
    width; otherwise both raise. *)
Theorem uint_classifier_and_predicate_agree (t : string) (term : KInner) :
  Py.startswith t "uint" = true → Py.endswith t "]" = false →
  match Py.int (Py.drop 4 t) with
  | OK w =>
      if (0 <? w) && (w <=? 256) && (w mod 8 =? 0) then
        _evm_base_sort t = OK (mkKSort "Int")
        ∧ _range_predicate term t = OK (Some (KEVM.range_uint w term))
      else
        _evm_base_sort t = Raise (unsupported_base_sort t)
        ∧ _range_predicate term t = Raise (unsupported_range_predicate t)
  | Raise e => _evm_base_sort t = Raise e ∧ _range_predicate term t = Raise e
  end.
Proof.
  intros Hs He.
  destruct (startswith_uint_not_others t Hs) as (Hb & Hi & Ha & Hbo & _ & _).
  unfold _evm_base_sort, _evm_base_sort_int, _range_predicate, _range_predicate_uint.
  rewrite Hs, He, Hb, Hi, Ha, Hbo. cbn [negb andb orb].
  unfold mbind, result_bind.
  destruct (Py.int (Py.drop 4 t)) as [w|e]; [|done].
  destruct ((0 <? w) && (w <=? 256) && (w mod 8 =? 0)); done.
Qed.

Lemma uint_classifier_and_predicate_agree_witness :
  _evm_base_sort "uint08" = OK (mkKSort "Int")
  ∧ _range_predicate (KVariable "x") "uint08" = OK (Some (KEVM.range_uint 8 (KVariable "x"))).
Proof.
  exact (uint_classifier_and_predicate_agree "uint08" (KVariable "x") eq_refl eq_refl).
Defined.

Lemma base_sort_K_no_branch (t : string) :
  _evm_base_sort t = OK (mkKSort "K") →
  Py.startswith t "uint" && negb (Py.endswith t "]") = false.
Proof.
  intros H. destruct (Py.startswith t "uint" && negb (Py.endswith t "]")) eqn:Hc; [|done].
  exfalso. unfold _evm_base_sort, _evm_base_sort_int in H. rewrite Hc in H.
  unfold mbind, result_bind in H. repeat case_match; simplify_eq.
Qed.

(** X9: what the predicate generator does on a type that
    the classifier accepts: it never raises; a type of sort [K] has no
    predicate, the type of sort [Bytes] has the unsigned 128-bit range of its
    length, the type of sort [String] has the predicate [true]. *)
Theorem accepted_type_predicate (t : string) (srt : KSort) (term : KInner) :
  _evm_base_sort t = OK srt →
  is_OK (_range_predicate term t) = true
  ∧ (sort_name srt = "K"%string → _range_predicate term t = OK None)
  ∧ (sort_name srt = "Bytes"%string →
     _range_predicate term t = OK (Some (KEVM.range_uint 128 (KEVM.size_bytes term))))
  ∧ (sort_name srt = "String"%string → _range_predicate term t = OK (Some TRUE)).
Proof.
  intros H. split; [apply base_sort_ok_range_ok; by rewrite H|].
  assert (Hlit : ∀ lit srt', _evm_base_sort lit = OK srt' → srt ≠ srt' →
                             String.eqb t lit = false).
  { intros lit srt' Hl Hne. apply String.eqb_neq. intros ->. congruence. }
  split; [|split].
  - intros Hk. destruct srt as [n]. simpl in Hk. subst n.
    unfold _range_predicate, _range_predicate_uint.
    rewrite (base_sort_K_no_branch t H). cbn [mbind result_bind].
    rewrite (Hlit "address" (mkKSort "Int")), (Hlit "bool" (mkKSort "Int")),
      (Hlit "bytes4" (mkKSort "Int")), (Hlit "bytes32" (mkKSort "Int")),
      (Hlit "uint256" (mkKSort "Int")), (Hlit "int256" (mkKSort "Int")),
      (Hlit "bytes" (mkKSort "Bytes")), (Hlit "string" (mkKSort "String")); done.
  - intros Hk. destruct srt as [n]. simpl in Hk. subst n.
    assert (t = "bytes"%string) as ->; [|reflexivity].
    unfold _evm_base_sort in H. unfold mbind, result_bind in H.
    destruct (_evm_base_sort_int t) as [[|]|]; [done| |done].
    destruct (String.eqb_spec t "bytes"); [done|].
    destruct (String.eqb t "string"); done.
  - intros Hk. destruct srt as [n]. simpl in Hk. subst n.
    assert (t = "string"%string) as ->; [|reflexivity].
    unfold _evm_base_sort in H. unfold mbind, result_bind in H.
    destruct (_evm_base_sort_int t) as [[|]|]; [done| |done].
    destruct (String.eqb t "bytes"); [done|].
    destruct (String.eqb_spec t "string"); done.
Qed.

Lemma accepted_type_predicate_witness :
  _evm_base_sort "tuple" = OK (mkKSort "K")
  ∧ _range_predicate (KVariable "x") "tuple" = OK None.
Proof.
  destruct (accepted_type_predicate "tuple" (mkKSort "K") (KVariable "x") eq_refl)
    as (_ & H & _).
  split; [reflexivity|exact (H eq_refl)].
Defined.

(** A type of sort [Int] can be without predicate: the classifier reads the
    width after [bytes] with [int], the generator compares the whole string. *)
Example int_sort_without_predicate :
  _evm_base_sort "bytes04" = OK (mkKSort "Int")
  ∧ _range_predicate (KVariable "x") "bytes04" = OK None.
Proof. split; reflexivity. Qed.
(** ** More on the construction of the model *)

Lemma contains_of_getitem (j v : JSON) (k : string) :
  Json.getitem j k = OK v → Json.contains k j = OK true.
Proof.
  destruct j as [| | | | |kvs]; try done. cbn [Json.getitem Json.contains].
  destruct (Json.assoc k kvs) eqn:E; [|done]. intros _.
  by rewrite bool_decide_eq_true_2 by eauto.
Qed.

Lemma first_slot_elem_of (k : string) (s : Z) (entries : list (string * Z)) :
  first_slot k entries = Some s → (k, s) ∈ entries.
Proof.
  induction entries as [|[l s'] entries IH]; simpl; [done|].
  destruct (String.eqb_spec l k) as [->|_].
  - intros [= ->]. by apply elem_of_cons; left.
  - intros H. apply elem_of_cons; right. by apply IH.
Qed.

(** X10: in every model that construction yields from an
    artifact with a storage layout, the field table maps each label to the
    slot of the first entry of the layout with that label, so every pair of
    the table is an entry of the layout; without layout the table is
    empty. *)
Theorem fields_of_constructed_model (contract_name : string) (contract_json : JSON)
  (foundry : bool) (self : Contract.t) :
  Contract.init contract_name contract_json foundry = OK self →
  (∀ layout storage entries,
     Json.getitem contract_json "storageLayout" = OK layout →
     Json.getitem layout "storage" = OK storage →
     Contract.fields_list storage = OK entries →
     (∀ k, Contract.fields self !! k = first_slot k entries)
     ∧ (∀ k s, Contract.fields self !! k = Some s → (k, s) ∈ entries))
  ∧ (Json.contains "storageLayout" contract_json = OK false → Contract.fields self = ∅).
Proof.
  intros Hinit. destruct (init_fields_of_init _ _ _ _ Hinit) as [log Hfields].
  unfold Contract.init_fields in Hfields. split.
  - intros layout storage entries Hlayout Hstorage Hentries.
    rewrite (contains_of_getitem _ _ _ Hlayout), Hlayout in Hfields.
    cbn [mbind result_bind] in Hfields.
    rewrite (contains_of_getitem _ _ _ Hstorage), Hstorage in Hfields.
    cbn [mbind result_bind] in Hfields. rewrite Hentries in Hfields.
    cbn [mbind result_bind] in Hfields.
    destruct (collect_fields_first_wins contract_name entries) as [H1 _].
    assert (Hk : ∀ k, Contract.fields self !! k = first_slot k entries).
    { intros k. rewrite <- H1. injection Hfields as Hc. by rewrite Hc. }
    split; [exact Hk|]. intros k s Hs. rewrite Hk in Hs. by apply first_slot_elem_of.
  - intros Hnone. rewrite Hnone in Hfields. cbn [mbind result_bind] in Hfields.
    by injection Hfields as <- _.
Qed.

Lemma fields_of_constructed_model_witness :
  ∃ self : Contract.t,
    Contract.init "C" (with_storage uint9_artifact [("y"%string, 3); ("x"%string, 0);
                                                     ("x"%string, 1)]) false = OK self
    ∧ Contract.fields self !! "x"%string = Some 0
    ∧ Contract.fields self !! "z"%string = None.
Proof.
  destruct (Contract.init "C" (with_storage uint9_artifact
              [("y"%string, 3); ("x"%string, 0); ("x"%string, 1)]) false)
    as [self|e] eqn:Hinit; [|vm_compute in Hinit; discriminate Hinit].
  exists self. split; [reflexivity|].
  destruct (fields_of_constructed_model _ _ _ _ Hinit) as [H _].
  destruct (H _ _ [("y"%string, 3); ("x"%string, 0); ("x"%string, 1)]
              eq_refl eq_refl eq_refl) as [Hk _].
  split; apply Hk.
Defined.

(** *** The methods of a model *)

(** *** The methods of a model *)

Lemma insert_by_perm {A} (key : A → string) (x : A) (l : list A) :
  insert_by key x l ≡ₚ x :: l.
Proof.
  induction l as [|y l IH]; simpl; [done|].
  destruct (String.leb (key x) (key y)); [done|].
  rewrite IH. apply Permutation_swap.
Qed.

Lemma sorted_by_perm {A} (key : A → string) (l : list A) : sorted_by key l ≡ₚ l.
Proof.
  unfold sorted_by. induction l as [|x l IH]; simpl; [done|].
  by rewrite insert_by_perm, IH.
Qed.

Lemma insert_by_sorted {A} (key : A → string) (x : A) (l : list A) :
  Sorted (fun a b => String.le (key a) (key b)) l →
  Sorted (fun a b => String.le (key a) (key b)) (insert_by key x l).
Proof.
  induction l as [|y l IH]; intros Hs; simpl.
  - repeat constructor.
  - destruct (String.leb (key x) (key y)) eqn:Hle.
    + constructor; [done|]. constructor. unfold String.le. by rewrite Hle.
    + apply Sorted_inv in Hs as [Hs Hhd]. constructor; [by apply IH|].
      assert (Hle' : String.le (key y) (key x)).
      { destruct (total String.le (key y) (key x)) as [?|H]; [done|].
        unfold String.le in H. by rewrite Hle in H. }
      destruct l as [|z l]; simpl.
      * by constructor.
      * destruct (String.leb (key x) (key z)); constructor; [done|].
        by apply HdRel_inv in Hhd.
Qed.

Lemma sorted_by_sorted {A} (key : A → string) (l : list A) :
  Sorted (fun a b => String.le (key a) (key b)) (sorted_by key l).
Proof.
  unfold sorted_by. induction l as [|x l IH]; simpl; [constructor|].
  by apply insert_by_sorted.
Qed.

Lemma method_init_fields (msig : string) (id : Z) (abi : JSON) (cn : string)
  (srt : KSort) (m : Method.t) :
  Method.init msig id abi cn srt = OK m →
  Method.signature m = msig ∧ Method.id m = id
  ∧ Method.contract_name m = cn ∧ Method.sort m = srt.
Proof.
  unfold Method.init. intros H. unfold mbind, result_bind in H.
  repeat case_match; simplify_eq; done.
Qed.

Lemma init_methods_props (cn : string) (evm : JSON) (abi : list JSON)
  (ms : list Method.t) :
  Contract.init_methods cn evm abi = OK ms →
  Forall (fun m => Method.contract_name m = cn ∧ Method.sort m = Contract.sort_method cn
                   ∧ ∃ entry, entry ∈ abi ∧ is_function entry = true
                              ∧ method_sig_from_abi entry = OK (Method.signature m)) ms
  ∧ length ms = length (List.filter is_function abi).
Proof.
  revert ms. induction abi as [|method abi IH]; intros ms.
  - intros [= <-]. split; [constructor|done].
  - cbn [Contract.init_methods List.filter]. unfold is_function at 2.
    destruct (Json.getitem method "type") as [ty|] eqn:Hty; [|done].
    cbn [mbind result_bind].
    assert (Hweak : ∀ ms', 
      Forall (fun m => Method.contract_name m = cn ∧ Method.sort m = Contract.sort_method cn
                   ∧ ∃ entry, entry ∈ abi ∧ is_function entry = true
                              ∧ method_sig_from_abi entry = OK (Method.signature m)) ms' →
      Forall (fun m => Method.contract_name m = cn ∧ Method.sort m = Contract.sort_method cn
                   ∧ ∃ entry, entry ∈ method :: abi ∧ is_function entry = true
                              ∧ method_sig_from_abi entry = OK (Method.signature m)) ms').
    { intros ms' Hf. eapply Forall_impl; [exact Hf|]. intros m (H1 & H2 & entry & H3 & H4).
      split; [done|]. split; [done|]. exists entry. split; [by apply elem_of_cons; right|done]. }
    intros H. unfold mbind, result_bind in H.
    repeat case_match; simplify_eq;
      first [ match goal with
              | H : Contract.init_methods _ _ _ = OK _ |- _ => destruct (IH _ H) as [IH1 IH2]
              end
            | destruct (IH _ eq_refl) as [IH1 IH2] ];
      try (split; [by apply Hweak|done]).
    split; [|simpl; by rewrite IH2].
    constructor; [|by apply Hweak].
    match goal with H : Method.init _ _ _ _ _ = OK _ |- _ =>
      apply method_init_fields in H as (Hs & _ & Hc & Hsrt) end.
    split; [done|]. split; [done|]. exists method.
    split; [by apply elem_of_cons; left|]. unfold is_function. rewrite Hty.
    split; [done|]. by rewrite Hs.
Qed.

Lemma init_methods_of_init (cn : string) (j : JSON) (foundry : bool) (self : Contract.t) :
  Contract.init cn j foundry = OK self →
  ∃ evm abi_json entries ms,
    Json.getitem j "abi" = OK abi_json ∧ Json.iter abi_json = OK entries
    ∧ Contract.init_methods cn evm entries = OK ms
    ∧ Contract.methods self = sorted_by Method.signature ms.
Proof.
  unfold Contract.init. intros H. unfold mbind, result_bind in H.
  repeat case_match; simplify_eq; do 4 eexists; eauto.
Qed.

(** X11: in every model that construction yields the methods are
    in the order of their signatures, there is one for each entry of the ABI
    whose type is [function] and none else, each carries the name of the
    contract and the sort of its methods, and each has as many argument
    names as argument types. *)
Theorem methods_of_constructed_model (contract_name : string) (contract_json : JSON)
  (foundry : bool) (self : Contract.t) :
  Contract.init contract_name contract_json foundry = OK self →
  Sorted signature_le (Contract.methods self)
  ∧ (∀ m, m ∈ Contract.methods self →
          Method.contract_name m = contract_name
          ∧ Method.sort m = Contract.sort_method contract_name
          ∧ length (Method.arg_names m) = length (Method.arg_types m))
  ∧ (∀ abi, Json.getitem contract_json "abi" = OK (JList abi) →
       length (Contract.methods self) = length (List.filter is_function abi)
       ∧ ∀ m, m ∈ Contract.methods self →
              ∃ entry, entry ∈ abi ∧ is_function entry = true
                       ∧ method_sig_from_abi entry = OK (Method.signature m)).
Proof.
  intros Hinit.
  destruct (init_methods_of_init _ _ _ _ Hinit)
    as (evm & abi_json & entries & ms & Habi & Hiter & Hms & E).
  destruct (init_methods_props _ _ _ _ Hms) as [Hall Hlen].
  rewrite Forall_forall in Hall.
  split; [rewrite E; apply sorted_by_sorted|]. split.
  - intros m Hm. pose proof (init_method_lengths _ _ _ _ m Hinit Hm) as Hl.
    rewrite E in Hm. apply elem_of_sorted_by in Hm.
    destruct (Hall m Hm) as (H1 & H2 & _). done.
  - intros abi Habi'. rewrite Habi' in Habi. injection Habi as <-.
    cbn [Json.iter] in Hiter. injection Hiter as <-. rewrite E. split.
    + by rewrite sorted_by_perm.
    + intros m Hm%elem_of_sorted_by. destruct (Hall m Hm) as (_ & _ & H). exact H.
Qed.

Lemma methods_of_constructed_model_witness :
  ∃ self : Contract.t,
    Contract.init "C" tuple_artifact false = OK self
    ∧ Sorted signature_le (Contract.methods self)
    ∧ length (Contract.methods self) = 2%nat.
Proof.
  destruct (Contract.init "C" tuple_artifact false) as [self|e] eqn:Hinit;
    [|vm_compute in Hinit; discriminate Hinit].
  exists self. split; [reflexivity|].
  destruct (methods_of_constructed_model _ _ _ _ Hinit) as (H1 & _ & H3).
  split; [exact H1|]. exact (proj1 (H3 _ eq_refl)).
Defined.
(** *** The rule of a method *)

Lemma range_predicate_none_any_term (t : string) (term term' : KInner) :
  _range_predicate term t = OK None → _range_predicate term' t = OK None.
Proof.
  unfold _range_predicate, _range_predicate_uint. unfold mbind, result_bind.
  intros H. repeat case_match; simplify_eq; done.
Qed.

(** What the loop of [rule] returns, in terms of its inputs. *)
Lemma rule_loop_outcome (types names : list string) :
  length names = length types →
  ∀ args0 conjuncts0 : list KInner,
    match Method.rule_loop names types args0 conjuncts0 with
    | OK (Some (args, conjuncts)) =>
        args = args0 ++ zip_with (fun n t => KEVM.abi_type t (KVariable n)) names types
        ∧ ∃ ps, conjuncts = conjuncts0 ++ ps
                ∧ Forall2 (fun nt p => _range_predicate (KVariable (fst nt)) (snd nt)
                                       = OK (Some p)) (zip names types) ps
    | OK None =>
        ∃ n t, (n, t) ∈ zip names types ∧ _range_predicate (KVariable n) t = OK None
    | Raise e =>
        ∃ n t, (n, t) ∈ zip names types ∧ _range_predicate (KVariable n) t = Raise e
    end.
Proof.
  revert names. induction types as [|t types IH]; intros [|n names] Hlen args0 conjuncts0;
    try done.
  - simpl. split; [by rewrite app_nil_r|]. exists []. split; [by rewrite app_nil_r|constructor].
  - cbn [Method.rule_loop zip zip_with].
    destruct (_range_predicate (KVariable n) t) as [[p|]|e] eqn:Hp; cbn [mbind result_bind].
    + specialize (IH names ltac:(simpl in Hlen; lia)
                     (args0 ++ [KEVM.abi_type t (KVariable n)]) (conjuncts0 ++ [p])).
      destruct (Method.rule_loop names types _ _) as [[[args conjuncts]|]|e].
      * destruct IH as (-> & ps & -> & Hall). split; [by rewrite <- app_assoc|].
        exists (p :: ps). split; [by rewrite <- app_assoc|]. by constructor.
      * destruct IH as (n' & t' & Hin & H). exists n', t'.
        split; [by apply elem_of_cons; right|done].
      * destruct IH as (n' & t' & Hin & H). exists n', t'.
        split; [by apply elem_of_cons; right|done].
    + exists n, t. split; [by apply elem_of_cons; left|done].
    + exists n, t. split; [by apply elem_of_cons; left|done].
Qed.

(** X12: the rule of a method of a model that construction yields.
    It never fails on the lengths of its argument lists: an error is that of
    the range predicate of one of the arguments.  There is no rule exactly
    when some argument type has no range predicate.  A rule rewrites the
    application of the method to its argument variables into the calldata of
    the method name and the typed arguments, and requires the conjunction of
    the range predicates of all the arguments. *)
Theorem rule_of_constructed_method (contract_name : string) (contract_json : JSON)
  (foundry : bool) (self : Contract.t) (m : Method.t) :
  Contract.init contract_name contract_json foundry = OK self →
  m ∈ Contract.methods self →
  match Contract.method_rule self m with
  | OK (Some r) =>
      ∃ ps,
        Forall2 (fun nt p => _range_predicate (KVariable (fst nt)) (snd nt) = OK (Some p))
          (zip (Method.arg_names m) (Method.arg_types m)) ps
        ∧ r = KRule
                (KRewrite
                   (KApply (Contract.klabel_method contract_name)
                      [KApply (Contract.klabel contract_name) [];
                       KApply (Method.klabel m) (map KVariable (Method.arg_names m))])
                   (KEVM.abi_calldata (Method.name m)
                      (zip_with (fun n t => KEVM.abi_type t (KVariable n))
                         (Method.arg_names m) (Method.arg_types m))))
                (andBool ps)
  | OK None =>
      ∃ t, t ∈ Method.arg_types m ∧ ∀ term, _range_predicate term t = OK None
  | Raise e =>
      ∃ t term, t ∈ Method.arg_types m ∧ _range_predicate term t = Raise e
  end.
Proof.
  intros Hinit Hm.
  pose proof (init_method_lengths _ _ _ _ m Hinit Hm) as Hlen.
  assert (Hname : Contract.name self = contract_name).
  { unfold Contract.init in Hinit. unfold mbind, result_bind in Hinit.
    repeat case_match; simplify_eq; done. }
  unfold Contract.method_rule, Method.rule. rewrite Hname.
  pose proof (rule_loop_outcome (Method.arg_types m) (Method.arg_names m) Hlen [] []) as H.
  destruct (Method.rule_loop _ _ [] []) as [[[args conjuncts]|]|e]; cbn [mbind result_bind].
  - destruct H as (-> & ps & -> & Hall). exists ps. split; [done|]. reflexivity.
  - destruct H as (n & t & Hin & H). exists t. split.
    + apply elem_of_zip_r in Hin. done.
    + intros term. by eapply range_predicate_none_any_term.
  - destruct H as (n & t & Hin & H). exists t, (KVariable n). split; [|done].
    by apply elem_of_zip_r in Hin.
Qed.

Lemma rule_of_constructed_method_witness :
  ∃ (self : Contract.t) (r : KSentence) (ps : list KInner),
    Contract.init "C" tuple_artifact false = OK self
    ∧ uint8_method ∈ Contract.methods self
    ∧ Contract.method_rule self uint8_method = OK (Some r)
    ∧ r = KRule
            (KRewrite
               (KApply (Contract.klabel_method "C")
                  [KApply (Contract.klabel "C") [];
                   KApply (Method.klabel uint8_method) [KVariable "V0_n"]])
               (KEVM.abi_calldata "g" [KEVM.abi_type "uint8" (KVariable "V0_n")]))
            (andBool ps).
Proof.
  assert (Hinit : Contract.init "C" tuple_artifact false = OK tuple_contract)
    by (vm_compute; reflexivity).
  assert (Hm : uint8_method ∈ Contract.methods tuple_contract)
    by (apply elem_of_cons; right; apply list_elem_of_singleton; reflexivity).
  pose proof (rule_of_constructed_method "C" tuple_artifact false tuple_contract
                uint8_method Hinit Hm) as H.
  destruct (Contract.method_rule tuple_contract uint8_method) as [[r|]|e] eqn:Hr;
    [|vm_compute in Hr; discriminate Hr|vm_compute in Hr; discriminate Hr].
  destruct H as (ps & _ & Heq).
  exists tuple_contract, r, ps. split; [exact Hinit|]. split; [exact Hm|].
  split; [exact Hr|exact Heq].
Defined.
(** *** The signature of a function *)

Lemma mapM_result_app_raise {A B} (f : A → result B) (xs : list A) (ys : list B)
  (x : A) (e : exn) :
  mapM_result f xs = OK ys → f x = Raise e → mapM_result f (xs ++ [x]) = Raise e.
Proof.
  revert ys. induction xs as [|x' xs IH]; intros ys; simpl.
  - intros _ ->. reflexivity.
  - destruct (f x') as [y|]; [|done]. cbn [mbind result_bind].
    destruct (mapM_result f xs) as [ys'|] eqn:Hxs; [|done]. intros _ Hx.
    by rewrite (IH ys' eq_refl Hx).
Qed.

(** X13: the signature of a well-formed function is its name
    and, between parentheses and separated by commas, its argument types: an
    elementary or array type as it is written, a tuple as the parenthesized
    list of the types of its components, followed by [[]] for a dynamic
    array of tuples; without arguments the parentheses are empty.  A tuple
    argument without [components] makes the canonicalizer raise
    [KeyError]. *)
Theorem method_sig_of_function (f : abi_fn) :
  forallb arg_wf (fn_args f) = true →
  method_sig_from_abi (fn_json f)
  = OK (fn_name f +:+ "(" +:+ Py.join "," (map arg_signature (fn_args f)) +:+ ")")
  ∧ (fn_args f = [] → method_sig_from_abi (fn_json f) = OK (fn_name f +:+ "()"))
  ∧ ∀ n, method_sig_from_abi
           (abi_function (fn_name f) (map arg_json (fn_args f) ++ [abi_input n "tuple"])
              (fn_mutability f))
         = Raise (KeyError "components").
Proof.
  intros Hwf. pose proof (method_sig_fn f Hwf) as H. split; [exact H|]. split.
  - intros E. rewrite H. unfold fn_signature. by rewrite E.
  - intros n. unfold method_sig_from_abi, abi_function.
    cbn [Json.getitem Json.assoc String.eqb Ascii.eqb Bool.eqb mbind result_bind Json.iter].
    rewrite (mapM_result_app_raise _ _ _ _ (KeyError "components") (mapM_unparse_args _ Hwf));
      reflexivity.
Qed.

Lemma method_sig_of_function_witness :
  method_sig_from_abi
    (fn_json (mkFn "f" [Arg "a" "uint8[3]"; ArgTuple "p" true [("x"%string, "bool"%string);
                                                                 ("y"%string, "bytes"%string)]]
                "view" "00000001"))
  = OK "f(uint8[3],(bool,bytes)[])"%string.
Proof.
  exact (proj1 (method_sig_of_function
                  (mkFn "f" [Arg "a" "uint8[3]";
                             ArgTuple "p" true [("x"%string, "bool"%string);
                                                ("y"%string, "bytes"%string)]]
                     "view" "00000001") eq_refl)).
Defined.
